(** * AbstractFactory: connection life cycle and pub/sub of the Redis client

    A shallow embedding of [src/AbstractFactory.ts].  The class extends
    Emittery (the event bus) and owns two ioredis connections: the primary
    [connection] and the lazily created [subscriberConnection].  Methods and
    the closures they register are state transformers over a [client] record;
    closures are defunctionalised ([native_handler], [handshake_callback],
    [kont]) so that the listener tables of the connections can be inspected
    and executed.

    What the class does to the outside world (driver requests, emissions on
    the bus, listener and handler invocations) is appended to a [trace], in
    program order. *)

From stdpp Require Import base strings list gmap.

Local Open Scope string_scope.
Local Open Scope list_scope.

(** ** Values *)

(** [T extends (Redis | Cluster)]: which ioredis class the connection is. *)
Inductive topology := Standalone | Cluster.

(** JavaScript values that travel through events.  Error objects, node
    handles and messages are opaque and named by a string. *)
Inductive payload :=
| PUndefined
| PStr (s : string)
| PNum (n : nat)
| PNodeError (error address : payload).

(** A user supplied function: a pub/sub handler or a bus listener.  It is
    known by its identity and by whether calling it throws (for an async
    listener: whether its promise rejects).  User functions are observers:
    they do not call back into the client. *)
Record callback := Callback { cb_id : nat; cb_throws : option string }.

Abbreviation PubSubChannelHandler := callback (only parsing).
Abbreviation PubSubPatternHandler := callback (only parsing).

Inductive exn :=
| TypeError
| Exception (message : string) (status : nat) (code : string)
| Thrown (e : string).

Inductive completion (A : Type) :=
| Return (a : A)
| Throw (e : exn).
Arguments Return {A} a.
Arguments Throw {A} e.

(** How a promise handed out by the driver settles. *)
Inductive settle := Fulfilled | Rejected (e : string).

(** The closure given to [subscribe] / [psubscribe] of the driver
    (lines 184-192 and 229-237). *)
Inductive handshake_callback :=
| SubscribeCb (channel : string) (handler : PubSubChannelHandler)
| PsubscribeCb (pattern : string) (handler : PubSubPatternHandler).

Inductive driver_request :=
| ReqQuit
| ReqDisconnect
| ReqSubscribe (channel : string) (k : handshake_callback)
| ReqUnsubscribe (channel : string)
| ReqPsubscribe (pattern : string) (k : handshake_callback)
| ReqPunsubscribe (pattern : string).

Inductive effect :=
| ENewConnection (id : nat)
| ERemoveAllListeners (id : nat)
| EDriver (id : nat) (r : driver_request)
| EEmit (name : string) (data : payload)
| EListener (name : string) (l : callback) (data : payload)
| EClearListeners
| EHandler (h : callback) (args : list payload).

(** The closures registered on a connection with [on]. *)
Inductive native_handler :=
| Proxy0 (name : string)     (* () => this.emit(name) *)
| Proxy1 (name : string)     (* (x) => this.emit(name, x) *)
| ProxyNodeError             (* (error, address) => { this.emit('node:error', { error, address }) } *)
| PrimaryEnd                 (* lines 60-69 *)
| OnMessage                  (* lines 89-94 *)
| OnPMessage                 (* lines 99-104 *)
| SubscriberEnd.             (* lines 121-134 *)

(** An ioredis connection, as far as the class sees it: an identity and the
    table of listeners of its Node event emitter, in registration order. *)
Record conn := Conn { c_id : nat; c_listeners : list (string * native_handler) }.

(** What the call site does with the promise returned by [emit]:
    nothing ([KFloating]: the promise is dropped, or returned to the Node
    emitter which ignores it), or it is awaited inside [try]/[catch] by the
    rest of an 'end' listener. *)
Inductive kont := KFloating | KPrimaryEnd | KSubscriberEnd.

(** An emission in flight: Emittery snapshots the listeners when [emit] is
    called and invokes them one microtask later. *)
Record emission := Emission {
  em_name : string;
  em_data : payload;
  em_listeners : list callback;
  em_kont : kont
}.

Record client := Client {
  topology_of : topology;
  connection : conn;
  subscriberConnection : option conn;
  subscriptions : gmap string PubSubChannelHandler;
  psubscriptions : gmap string PubSubPatternHandler;
  bus : list (string * callback);
  microtasks : list emission;
  unhandled : list string;
  fresh : nat;
  trace : list effect
}.

Definition set_connection (c : conn) (st : client) : client :=
  Client (topology_of st) c (subscriberConnection st) (subscriptions st)
    (psubscriptions st) (bus st) (microtasks st) (unhandled st) (fresh st) (trace st).

Definition set_subscriberConnection (c : option conn) (st : client) : client :=
  Client (topology_of st) (connection st) c (subscriptions st)
    (psubscriptions st) (bus st) (microtasks st) (unhandled st) (fresh st) (trace st).

Definition set_subscriptions (m : gmap string callback) (st : client) : client :=
  Client (topology_of st) (connection st) (subscriberConnection st) m
    (psubscriptions st) (bus st) (microtasks st) (unhandled st) (fresh st) (trace st).

Definition set_psubscriptions (m : gmap string callback) (st : client) : client :=
  Client (topology_of st) (connection st) (subscriberConnection st) (subscriptions st)
    m (bus st) (microtasks st) (unhandled st) (fresh st) (trace st).

Definition set_bus (b : list (string * callback)) (st : client) : client :=
  Client (topology_of st) (connection st) (subscriberConnection st) (subscriptions st)
    (psubscriptions st) b (microtasks st) (unhandled st) (fresh st) (trace st).

Definition set_microtasks (q : list emission) (st : client) : client :=
  Client (topology_of st) (connection st) (subscriberConnection st) (subscriptions st)
    (psubscriptions st) (bus st) q (unhandled st) (fresh st) (trace st).

Definition set_unhandled (u : list string) (st : client) : client :=
  Client (topology_of st) (connection st) (subscriberConnection st) (subscriptions st)
    (psubscriptions st) (bus st) (microtasks st) u (fresh st) (trace st).

Definition set_fresh (n : nat) (st : client) : client :=
  Client (topology_of st) (connection st) (subscriberConnection st) (subscriptions st)
    (psubscriptions st) (bus st) (microtasks st) (unhandled st) n (trace st).

Definition record (es : list effect) (st : client) : client :=
  Client (topology_of st) (connection st) (subscriberConnection st) (subscriptions st)
    (psubscriptions st) (bus st) (microtasks st) (unhandled st) (fresh st) (trace st ++ es).

(** ** Synchronous code: state and exceptions *)

Definition M (A : Type) : Type := client -> completion A * client.

Definition ret {A} (a : A) : M A := fun st => (Return a, st).

Definition throw {A} (e : exn) : M A := fun st => (Throw e, st).

Definition bind {A B} (m : M A) (f : A -> M B) : M B :=
  fun st =>
    match m st with
    | (Return a, st') => f a st'
    | (Throw e, st') => (Throw e, st')
    end.

Definition modify (f : client -> client) : M unit := fun st => (Return tt, f st).

Declare Scope client_scope.
Delimit Scope client_scope with client.
Notation "m ;; k" := (bind m (fun _ => k))
  (at level 100, k at level 200, right associativity) : client_scope.
Local Open Scope client_scope.

(** The state a computation leaves behind. *)
Definition exec {A} (m : M A) (st : client) : client := snd (m st).

(** ** The Node event emitter of a connection *)

Definition conn_on (ev : string) (h : native_handler) (c : conn) : conn :=
  Conn (c_id c) (c_listeners c ++ [(ev, h)]).

Definition conn_removeAllListeners (c : conn) : conn := Conn (c_id c) [].

Fixpoint handlers_of (ev : string) (l : list (string * native_handler)) : list native_handler :=
  match l with
  | [] => []
  | (ev', h) :: l' => if String.eqb ev' ev then h :: handlers_of ev l' else handlers_of ev l'
  end.

(** ** Emittery *)

(** The bus the class inherits from.  Its three methods are written after
    the library: [emit] is an async function that copies the listeners of
    the name, yields once, calls every copied listener that is still
    registered and resolves with [Promise.all] of the results. *)
Module Emittery.

Fixpoint listeners (name : string) (b : list (string * callback)) : list callback :=
  match b with
  | [] => []
  | (n, l) :: b' => if String.eqb n name then l :: listeners name b' else listeners name b'
  end.

(** [listeners.has(listener)], listeners being compared by identity. *)
Definition has (name : string) (l : callback) (b : list (string * callback)) : bool :=
  existsb (fun l' => Nat.eqb (cb_id l') (cb_id l)) (listeners name b).

(** [on(name, listener)]: the listeners of a name form a Set. *)
Definition on (name : string) (l : callback) (st : client) : client :=
  if has name l (bus st) then st else set_bus (bus st ++ [(name, l)]) st.

(** [clearListeners()], without an event name: every listener goes. *)
Definition clearListeners : M unit :=
  modify (fun st => record [EClearListeners] (set_bus [] st)).

(** [emit(name, data)] up to its first [await]: the listeners are
    snapshotted and the promise is handed to the call site, whose use of it
    is [k]. *)
Definition emit (name : string) (data : payload) (k : kont) : M unit :=
  modify (fun st =>
    record [EEmit name data]
      (set_microtasks
         (microtasks st ++ [Emission name data (listeners name (bus st)) k]) st)).

(** The listeners of the snapshot that are still registered are all
    invoked, each inside its own async wrapper. *)
Definition live (em : emission) (b : list (string * callback)) : list callback :=
  List.filter (fun l => has (em_name em) l b) (em_listeners em).

(** [Promise.all]: fulfilled when no listener fails, else rejected with the
    first failure. *)
Fixpoint outcome (ls : list callback) : settle :=
  match ls with
  | [] => Fulfilled
  | l :: ls' => match cb_throws l with Some e => Rejected e | None => outcome ls' end
  end.

End Emittery.

(** ** The class *)

(** [Map.prototype.get] / [has] with a key that comes from an event: only a
    string can be a key of the two maps. *)
Definition map_get (m : gmap string callback) (key : payload) : option callback :=
  match key with
  | PStr s => m !! s
  | _ => None
  end.

Definition map_has (m : gmap string callback) (key : string) : bool :=
  match m !! key with
  | Some _ => true
  | None => false
  end.

(** The i-th argument of a listener call; a missing one is [undefined]. *)
Definition arg (i : nat) (args : list payload) : payload := nth i args PUndefined.

(** Calling a pub/sub handler. *)
Definition call (h : callback) (args : list payload) : M unit :=
  fun st =>
    (match cb_throws h with Some e => Throw (Thrown e) | None => Return tt end,
     record [EHandler h args] st).

(** [this.connection.on(ev, h)] *)
Definition connection_on (ev : string) (h : native_handler) : M unit :=
  modify (fun st => set_connection (conn_on ev h (connection st)) st).

(** [this.connection.removeAllListeners()] *)
Definition connection_removeAllListeners : M unit :=
  modify (fun st =>
    record [ERemoveAllListeners (c_id (connection st))]
      (set_connection (conn_removeAllListeners (connection st)) st)).

(** [this.subscriberConnection!.on(ev, h)] *)
Definition subscriberConnection_on (ev : string) (h : native_handler) : M unit :=
  fun st =>
    match subscriberConnection st with
    | Some sc => (Return tt, set_subscriberConnection (Some (conn_on ev h sc)) st)
    | None => (Throw TypeError, st)
    end.

(** [(this.subscriberConnection as any).m(...)]: a request to the driver on
    the subscriber connection; a [TypeError] when there is none. *)
Definition subscriber_request (r : driver_request) : M unit :=
  fun st =>
    match subscriberConnection st with
    | Some sc => (Return tt, record [EDriver (c_id sc) r] st)
    | None => (Throw TypeError, st)
    end.

(** An async method with two [await]s runs in three pieces: from the call
    to the first [await]; from the settling of the first awaited promise to
    the second [await] or to the end; and from the settling of the second.
    Between two pieces anything else can run. *)
Inductive stage :=
| Called
| FirstSettled (r : settle)
| SecondSettled (r : settle).

(** Where a piece leaves the method: suspended at an [await], or finished,
    its promise fulfilled or rejected. *)
Inductive progress :=
| Awaiting
| Finished (c : completion unit).

(** Modelled from the spec: the abstract method [$makeSubscriberConnection]
    (line 29), whose implementations live in the subclasses.  It creates the
    secondary connection through the driver and stores it in
    [subscriberConnection]. *)
Definition makeSubscriberConnection : M unit :=
  modify (fun st =>
    record [ENewConnection (fresh st)]
      (set_fresh (S (fresh st))
         (set_subscriberConnection (Some (Conn (fresh st) [])) st))).

(** Modelled from the spec: the state a subclass constructor leaves before it
    wires the events (the constructor of the class itself, lines 31-33, only
    calls [super]); the primary connection exists for the whole life of the
    client and nothing else does yet. *)
Definition new_client (t : topology) : client :=
  Client t (Conn 0 []) None ∅ ∅ [] [] [] 1 [].

(** [$proxyConnectionEvents], lines 41-70. *)
Definition proxyConnectionEvents : M unit :=
  connection_on "connect" (Proxy0 "connect") ;;
  connection_on "ready" (Proxy0 "ready") ;;
  connection_on "error" (Proxy1 "error") ;;
  connection_on "close" (Proxy0 "close") ;;
  connection_on "reconnecting" (Proxy0 "reconnecting") ;;
  connection_on "+node" (Proxy1 "node:added") ;;
  connection_on "-node" (Proxy1 "node:removed") ;;
  connection_on "node error" ProxyNodeError ;;
  connection_on "end" PrimaryEnd.

(** [$setupSubscriberConnection], lines 76-135. *)
Definition setupSubscriberConnection : M unit :=
  fun st =>
    match subscriberConnection st with
    | Some _ => ret tt st
    | None =>
        (makeSubscriberConnection ;;
         subscriberConnection_on "message" OnMessage ;;
         subscriberConnection_on "pmessage" OnPMessage ;;
         subscriberConnection_on "connect" (Proxy0 "subscriber:connect") ;;
         subscriberConnection_on "ready" (Proxy0 "subscriber:ready") ;;
         subscriberConnection_on "error" (Proxy1 "subscriber:error") ;;
         subscriberConnection_on "close" (Proxy0 "subscriber:close") ;;
         subscriberConnection_on "reconnecting" (Proxy0 "subscriber:reconnecting") ;;
         subscriberConnection_on "end" SubscriberEnd) st
    end.

(** The bodies of the closures registered above, each up to its first
    [await]. *)
Definition run_native (h : native_handler) (args : list payload) : M unit :=
  match h with
  | Proxy0 name => Emittery.emit name PUndefined KFloating
  | Proxy1 name => Emittery.emit name (arg 0 args) KFloating
  | ProxyNodeError =>
      Emittery.emit "node:error" (PNodeError (arg 0 args) (arg 1 args)) KFloating
  | PrimaryEnd =>
      connection_removeAllListeners ;;
      Emittery.emit "end" PUndefined KPrimaryEnd
  | OnMessage =>
      fun st =>
        match map_get (subscriptions st) (arg 0 args) with
        | Some handler => call handler [arg 1 args] st
        | None => ret tt st
        end
  | OnPMessage =>
      fun st =>
        match map_get (psubscriptions st) (arg 0 args) with
        | Some handler => call handler [arg 1 args; arg 2 args] st
        | None => ret tt st
        end
  | SubscriberEnd =>
      connection_removeAllListeners ;;
      Emittery.emit "subscriber:end" PUndefined KSubscriberEnd
  end.

(** What happens once the promise of an emission has settled.  The two
    'end' listeners catch and drop a rejection and go on (lines 65-68 and
    126-133); a promise nobody listens to becomes an unhandled rejection. *)
Definition resume (k : kont) (r : settle) : M unit :=
  match k with
  | KFloating =>
      modify (fun st =>
        match r with
        | Rejected e => set_unhandled (unhandled st ++ [e]) st
        | Fulfilled => st
        end)
  | KPrimaryEnd => Emittery.clearListeners
  | KSubscriberEnd =>
      modify (fun st => set_psubscriptions ∅ (set_subscriptions ∅ st))
  end.

(** The emissions in flight run, first in first out: each invokes its live
    listeners, in order, and its promise settles.  What waits for that
    promise is scheduled behind everything already in the queue, so it is
    returned here, with the way the promise settled, and runs later. *)
Fixpoint run_listeners (q : list emission) (st : client) : list (kont * settle) * client :=
  match q with
  | [] => ([], st)
  | em :: q' =>
      let ls := Emittery.live em (bus st) in
      let st1 := record (map (fun l => EListener (em_name em) l (em_data em)) ls) st in
      let rest := run_listeners q' st1 in
      ((em_kont em, Emittery.outcome ls) :: fst rest, snd rest)
  end.

(** The call sites resume, in the order their promises settled. *)
Fixpoint run_resumes (rs : list (kont * settle)) (st : client) : client :=
  match rs with
  | [] => st
  | (k, r) :: rs' => run_resumes rs' (exec (resume k r) st)
  end.

(** The microtask queue is emptied: the listeners of every emission in
    flight, then the code that awaited them. *)
Definition drain (st : client) : client :=
  let ran := run_listeners (microtasks st) (set_microtasks [] st) in
  run_resumes (fst ran) (snd ran).

(** The Node emitter of a connection emits [ev]: the listeners registered
    under that name are called in order; an exception of one of them
    escapes. *)
Fixpoint run_handlers (hs : list native_handler) (args : list payload) : M unit :=
  match hs with
  | [] => ret tt
  | h :: hs' => run_native h args ;; run_handlers hs' args
  end.

Definition fire_primary (ev : string) (args : list payload) : M unit :=
  fun st => run_handlers (handlers_of ev (c_listeners (connection st))) args st.

Definition fire_subscriber (ev : string) (args : list payload) : M unit :=
  fun st =>
    match subscriberConnection st with
    | Some sc => run_handlers (handlers_of ev (c_listeners sc)) args st
    | None => ret tt st
    end.

(** [quit], lines 140-145, piece by piece.  Line 141 sends the request to
    the primary connection and awaits it.  When that promise has settled, a
    rejection ends the method; otherwise line 142 reads
    [subscriberConnection], as it is then, and line 143 sends the request to
    the subscriber connection and awaits it.  When that one has settled the
    method ends. *)
Definition quit (s : stage) (st : client) : progress * client :=
  match s with
  | Called => (Awaiting, record [EDriver (c_id (connection st)) ReqQuit] st)
  | FirstSettled (Rejected e) => (Finished (Throw (Thrown e)), st)
  | FirstSettled Fulfilled =>
      match subscriberConnection st with
      | Some sc => (Awaiting, record [EDriver (c_id sc) ReqQuit] st)
      | None => (Finished (Return tt), st)
      end
  | SecondSettled (Rejected e) => (Finished (Throw (Thrown e)), st)
  | SecondSettled Fulfilled => (Finished (Return tt), st)
  end.

(** [disconnect], lines 150-155, piece by piece. *)
Definition disconnect (s : stage) (st : client) : progress * client :=
  match s with
  | Called => (Awaiting, record [EDriver (c_id (connection st)) ReqDisconnect] st)
  | FirstSettled (Rejected e) => (Finished (Throw (Thrown e)), st)
  | FirstSettled Fulfilled =>
      match subscriberConnection st with
      | Some sc => (Awaiting, record [EDriver (c_id sc) ReqDisconnect] st)
      | None => (Finished (Return tt), st)
      end
  | SecondSettled (Rejected e) => (Finished (Throw (Thrown e)), st)
  | SecondSettled Fulfilled => (Finished (Return tt), st)
  end.

(** The closures passed to the driver by [subscribe] and [psubscribe],
    called with [(error, count)]; [error] is [None] for a falsy value. *)
Definition run_callback (k : handshake_callback) (error : option string) (count : nat) : M unit :=
  match k with
  | SubscribeCb channel handler =>
      match error with
      | Some e => Emittery.emit "subscription:error" (PStr e) KFloating
      | None =>
          Emittery.emit "subscription:ready" (PNum count) KFloating ;;
          modify (fun st => set_subscriptions (<[channel := handler]> (subscriptions st)) st)
      end
  | PsubscribeCb pattern handler =>
      match error with
      | Some e => Emittery.emit "psubscription:error" (PStr e) KFloating
      | None =>
          Emittery.emit "psubscription:ready" (PNum count) KFloating ;;
          modify (fun st => set_psubscriptions (<[pattern := handler]> (psubscriptions st)) st)
      end
  end.

(** The two exceptions of lines 172-176 and 217-221. *)
Definition E_MULTIPLE_REDIS_SUBSCRIPTIONS (channel : string) : exn :=
  Exception (channel +:+ " channel already has an active subscription")
    500 "E_MULTIPLE_REDIS_SUBSCRIPTIONS".

Definition E_MULTIPLE_REDIS_PSUBSCRIPTIONS (pattern : string) : exn :=
  Exception (pattern +:+ " pattern already has an active subscription")
    500 "E_MULTIPLE_REDIS_PSUBSCRIPTIONS".

(** [subscribe], lines 161-193. *)
Definition subscribe (channel : string) (handler : PubSubChannelHandler) : M unit :=
  setupSubscriberConnection ;;
  (fun st =>
     if map_has (subscriptions st) channel
     then throw (E_MULTIPLE_REDIS_SUBSCRIPTIONS channel) st
     else ret tt st) ;;
  subscriber_request (ReqSubscribe channel (SubscribeCb channel handler)).

(** [unsubscribe], lines 198-201. *)
Definition unsubscribe (channel : string) : M unit :=
  modify (fun st => set_subscriptions (delete channel (subscriptions st)) st) ;;
  subscriber_request (ReqUnsubscribe channel).

(** [psubscribe], lines 206-238. *)
Definition psubscribe (pattern : string) (handler : PubSubPatternHandler) : M unit :=
  setupSubscriberConnection ;;
  (fun st =>
     if map_has (psubscriptions st) pattern
     then throw (E_MULTIPLE_REDIS_PSUBSCRIPTIONS pattern) st
     else ret tt st) ;;
  subscriber_request (ReqPsubscribe pattern (PsubscribeCb pattern handler)).

(** [punsubscribe], lines 243-246. *)
Definition punsubscribe (pattern : string) : M unit :=
  modify (fun st => set_psubscriptions (delete pattern (psubscriptions st)) st) ;;
  subscriber_request (ReqPunsubscribe pattern).

(** The requests sent to the driver, in order. *)
Fixpoint driver_requests (t : list effect) : list (nat * driver_request) :=
  match t with
  | [] => []
  | EDriver id r :: t' => (id, r) :: driver_requests t'
  | _ :: t' => driver_requests t'
  end.

(** The connections created, in order. *)
Fixpoint connections_made (t : list effect) : list nat :=
  match t with
  | [] => []
  | ENewConnection id :: t' => id :: connections_made t'
  | _ :: t' => connections_made t'
  end.


(** ** The client as a transition system *)

(** Everything that can happen to a client: a call of its interface, a
    piece of [quit] or [disconnect], a handshake answered by the driver, an
    event of one of the two connections, the microtask queue running. *)
Inductive action :=
| ProxyConnectionEvents
| On (name : string) (l : callback)
| Subscribe (channel : string) (handler : callback)
| Unsubscribe (channel : string)
| Psubscribe (pattern : string) (handler : callback)
| Punsubscribe (pattern : string)
| Quit (s : stage)
| Disconnect (s : stage)
| Handshake (k : handshake_callback) (error : option string) (count : nat)
| PrimaryEvent (ev : string) (args : list payload)
| SubscriberEvent (ev : string) (args : list payload)
| Microtasks.

Definition step (a : action) (st : client) : client :=
  match a with
  | ProxyConnectionEvents => exec proxyConnectionEvents st
  | On name l => Emittery.on name l st
  | Subscribe channel handler => exec (subscribe channel handler) st
  | Unsubscribe channel => exec (unsubscribe channel) st
  | Psubscribe pattern handler => exec (psubscribe pattern handler) st
  | Punsubscribe pattern => exec (punsubscribe pattern) st
  | Quit s => snd (quit s st)
  | Disconnect s => snd (disconnect s st)
  | Handshake k error count => exec (run_callback k error count) st
  | PrimaryEvent ev args => exec (fire_primary ev args) st
  | SubscriberEvent ev args => exec (fire_subscriber ev args) st
  | Microtasks => drain st
  end.

Definition run (l : list action) (st : client) : client :=
  fold_left (fun s a => step a s) l st.

(** ** Vocabulary of the statements *)

Definition same_maps (st st' : client) : Prop :=
  subscriptions st' = subscriptions st /\ psubscriptions st' = psubscriptions st.

Definition keeps_maps {A} (m : M A) : Prop := forall st, same_maps st (exec m st).

(** The emissions a computation has added to the microtask queue. *)
Definition emitted {A} (m : M A) (st : client) : list emission :=
  drop (length (microtasks st)) (microtasks (exec m st)).

(** Is the promise of the emission awaited inside [try]/[catch]? *)
Definition caught (em : emission) : bool :=
  match em_kont em with
  | KFloating => false
  | KPrimaryEnd | KSubscriberEnd => true
  end.

(** The listeners the class registers on a fresh primary and on a fresh
    subscriber connection. *)
Definition primary_wiring : list (string * native_handler) :=
  Eval vm_compute in c_listeners (connection (exec proxyConnectionEvents (new_client Cluster))).

Definition subscriber_wiring : list (string * native_handler) :=
  Eval vm_compute in
    match subscriberConnection (exec setupSubscriberConnection (new_client Cluster)) with
    | Some sc => c_listeners sc
    | None => []
    end.

(** Every emission of the closures in a listener table, with whether its
    promise is caught. *)
Definition emission_sites (table : list (string * native_handler))
    (args : list payload) (st : client) : list (string * bool) :=
  flat_map
    (fun entry => map (fun em => (em_name em, caught em)) (emitted (run_native entry.2 args) st))
    table.

(** What running the queue does for one emission in flight, the bus being
    [b]: the listener calls, the clearing of the bus by the code that
    awaited it, the rejection left unhandled. *)
Definition calls (b : list (string * callback)) (em : emission) : list effect :=
  map (fun l => EListener (em_name em) l (em_data em)) (Emittery.live em b).

Definition clears (em : emission) : list effect :=
  match em_kont em with
  | KPrimaryEnd => [EClearListeners]
  | _ => []
  end.

Definition rejections (b : list (string * callback)) (em : emission) : list string :=
  match em_kont em, Emittery.outcome (Emittery.live em b) with
  | KFloating, Rejected e => [e]
  | _, _ => []
  end.

Definition settled (b : list (string * callback)) (em : emission) : kont * settle :=
  (em_kont em, Emittery.outcome (Emittery.live em b)).

Definition is_primary_end (em : emission) : bool :=
  match em_kont em with KPrimaryEnd => true | _ => false end.

Definition is_subscriber_end (em : emission) : bool :=
  match em_kont em with KSubscriberEnd => true | _ => false end.

(** ** Sample clients *)

Definition sports : callback := Callback 1 None.
Definition weather : callback := Callback 2 None.
Definition faulty : callback := Callback 3 (Some "listener failed").
Definition quiet : callback := Callback 4 None.

(** A client whose primary connection is wired. *)
Definition wired_client (t : topology) : client := step ProxyConnectionEvents (new_client t).

(** A client with one channel and one pattern subscribed. *)
Definition subscribed_client : client :=
  run [Subscribe "news" sports; Handshake (SubscribeCb "news" sports) None 1;
       Psubscribe "news.*" weather; Handshake (PsubscribeCb "news.*" weather) None 2;
       Microtasks]
    (wired_client Standalone).

(** A client with a failing and a well-behaved listener on 'connect', on
    'end' and on 'subscriber:end'. *)
Definition listening_client : client :=
  run [On "connect" faulty; On "connect" quiet;
       On "end" faulty; On "end" quiet;
       On "subscriber:end" faulty; On "subscriber:end" quiet]
    subscribed_client.

(** A client with one channel subscribed and no pattern. *)
Definition channel_only_client : client :=
  run [Subscribe "news" sports; Handshake (SubscribeCb "news" sports) None 1; Microtasks]
    (wired_client Standalone).


(** The subscribed client after its subscriber connection has ended, and
    after one more [subscribe]. *)
Definition ended_client : client :=
  run [SubscriberEvent "end" []; Microtasks] subscribed_client.


(** ** Reachable clients *)

(** The request through which a handshake callback was handed to the
    driver (lines 184 and 229). *)
Definition request_of (k : handshake_callback) : driver_request :=
  match k with
  | SubscribeCb channel _ => ReqSubscribe channel k
  | PsubscribeCb pattern _ => ReqPsubscribe pattern k
  end.

(** The driver only calls back closures it was given; every other action
    can happen at any time. *)
Definition allowed (a : action) (st : client) : Prop :=
  match a with
  | Handshake k _ _ => exists id, In (id, request_of k) (driver_requests (trace st))
  | _ => True
  end.

Fixpoint allowed_all (l : list action) (st : client) : Prop :=
  match l with
  | [] => True
  | a :: l' => allowed a st /\ allowed_all l' (step a st)
  end.

(** The clients a program can get: a new one, then any allowed actions. *)
Inductive reachable : client -> Prop :=
| reachable_new (t : topology) : reachable (new_client t)
| reachable_step (a : action) (st : client) :
    reachable st -> allowed a st -> reachable (step a st).

(** Requests of the pub/sub protocol, as opposed to quit and disconnect. *)
Definition is_pubsub (r : driver_request) : bool :=
  match r with
  | ReqQuit | ReqDisconnect => false
  | _ => true
  end.

(** Nothing about the connections or the requests has changed. *)
Definition steady (st st' : client) : Prop :=
  c_id (connection st') = c_id (connection st) /\
  subscriberConnection st' = subscriberConnection st /\
  fresh st' = fresh st /\
  connections_made (trace st') = connections_made (trace st) /\
  driver_requests (trace st') = driver_requests (trace st).

(** Every entry of the maps of [st'] was already in [st]. *)
Definition shrinks (st st' : client) : Prop :=
  (forall c h, subscriptions st' !! c = Some h -> subscriptions st !! c = Some h) /\
  (forall p h, psubscriptions st' !! p = Some h -> psubscriptions st !! p = Some h).

Definition keeps_steady {A} (m : M A) : Prop := forall st, steady st (exec m st).

(** What holds of every reachable client: the primary connection is number
    0; the subscriber connection, if any, is number 1, the only one ever
    made, with its eight listeners; pub/sub requests went to number 1; and
    every handler in a map was passed to [subscribe] or [psubscribe] under
    its key. *)
Definition well_formed (st : client) : Prop :=
  c_id (connection st) = 0 /\
  match subscriberConnection st with
  | None =>
      fresh st = 1 /\ connections_made (trace st) = [] /\
      Forall (fun q => q.1 = 0) (driver_requests (trace st))
  | Some sc =>
      sc = Conn 1 subscriber_wiring /\ fresh st = 2 /\ connections_made (trace st) = [1]
  end /\
  Forall (fun q => is_pubsub q.2 = true -> q.1 = 1) (driver_requests (trace st)) /\
  (forall c h, subscriptions st !! c = Some h ->
     In (1, ReqSubscribe c (SubscribeCb c h)) (driver_requests (trace st))) /\
  (forall p h, psubscriptions st !! p = Some h ->
     In (1, ReqPsubscribe p (PsubscribeCb p h)) (driver_requests (trace st))).

(** The completion of a call of a user function. *)
Definition completion_of (h : callback) : completion unit :=
  match cb_throws h with
  | Some e => Throw (Thrown e)
  | None => Return tt
  end.

(** * Properties *)

(** ** Auxiliary facts *)

Section Auxiliary.

Implicit Types (st : client) (b : list (string * callback)).

Lemma driver_requests_app (t u : list effect) :
  driver_requests (t ++ u) = driver_requests t ++ driver_requests u.
Proof.
  induction t as [|e t IH]; [reflexivity|].
  destruct e; simpl; rewrite ?IH; reflexivity.
Qed.

Lemma connections_made_app (t u : list effect) :
  connections_made (t ++ u) = connections_made t ++ connections_made u.
Proof.
  induction t as [|e t IH]; [reflexivity|].
  destruct e; simpl; rewrite ?IH; reflexivity.
Qed.

Lemma existsb_same_id (l : callback) (ls : list callback) :
  In l ls -> existsb (fun l' => Nat.eqb (cb_id l') (cb_id l)) ls = true.
Proof.
  intros Hin. apply existsb_exists. exists l. split; [assumption|].
  apply Nat.eqb_refl.
Qed.

Lemma filter_all {A} (p : A -> bool) (l : list A) :
  (forall x, In x l -> p x = true) -> List.filter p l = l.
Proof.
  induction l as [|a l IH]; intros H; [reflexivity|].
  simpl. rewrite (H a (or_introl eq_refl)). f_equal.
  apply IH. intros x Hx. apply H. right. exact Hx.
Qed.

(** A listener registered when [emit] is called and not removed since is
    invoked: nothing of the snapshot is skipped. *)
Lemma live_snapshot (name : string) (data : payload) (k : kont) b :
  Emittery.live (Emission name data (Emittery.listeners name b) k) b
  = Emittery.listeners name b.
Proof.
  unfold Emittery.live. simpl. apply filter_all.
  intros l Hl. unfold Emittery.has. apply existsb_same_id. exact Hl.
Qed.

(** [$setupSubscriberConnection] never throws. *)
Lemma setup_returns st : fst (setupSubscriberConnection st) = Return tt.
Proof.
  unfold setupSubscriberConnection.
  destruct (subscriberConnection st) eqn:E; reflexivity.
Qed.

Lemma setup_run st :
  setupSubscriberConnection st = (Return tt, exec setupSubscriberConnection st).
Proof.
  pose proof (setup_returns st) as H. unfold exec.
  destruct (setupSubscriberConnection st) as [r st']. simpl in *. congruence.
Qed.

Lemma setup_present st sc :
  subscriberConnection st = Some sc -> setupSubscriberConnection st = (Return tt, st).
Proof. intros E. unfold setupSubscriberConnection. rewrite E. reflexivity. Qed.

Lemma setup_ensures st : is_Some (subscriberConnection (exec setupSubscriberConnection st)).
Proof.
  unfold exec, setupSubscriberConnection.
  destruct (subscriberConnection st) eqn:E; simpl.
  - rewrite E. eauto.
  - eauto.
Qed.

(** It touches neither map, nor the bus, nor the requests sent so far. *)
Lemma setup_frame st :
  let st' := exec setupSubscriberConnection st in
  subscriptions st' = subscriptions st /\
  psubscriptions st' = psubscriptions st /\
  bus st' = bus st /\
  connection st' = connection st /\
  microtasks st' = microtasks st /\
  unhandled st' = unhandled st /\
  driver_requests (trace st') = driver_requests (trace st).
Proof.
  unfold exec, setupSubscriberConnection.
  destruct (subscriberConnection st) eqn:E; simpl.
  - repeat split.
  - repeat split. rewrite driver_requests_app. simpl. apply app_nil_r.
Qed.

End Auxiliary.

(** ** Subscribing *)

Section Subscribing.

Implicit Types (st : client) (c p : string) (h : callback).

(** [subscribe] by cases, after the set-up of the subscriber connection. *)
Lemma subscribe_cases c h st :
  subscribe c h st =
    let st1 := exec setupSubscriberConnection st in
    if map_has (subscriptions st) c
    then (Throw (E_MULTIPLE_REDIS_SUBSCRIPTIONS c), st1)
    else match subscriberConnection st1 with
         | Some sc =>
             (Return tt, record [EDriver (c_id sc) (ReqSubscribe c (SubscribeCb c h))] st1)
         | None => (Throw TypeError, st1)
         end.
Proof.
  destruct (setup_frame st) as (Hs & _).
  unfold subscribe, bind. rewrite (setup_run st). cbv zeta.
  rewrite Hs. destruct (map_has (subscriptions st) c); [reflexivity|].
  unfold ret, subscriber_request.
  destruct (subscriberConnection (exec setupSubscriberConnection st)); reflexivity.
Qed.

Lemma psubscribe_cases p h st :
  psubscribe p h st =
    let st1 := exec setupSubscriberConnection st in
    if map_has (psubscriptions st) p
    then (Throw (E_MULTIPLE_REDIS_PSUBSCRIPTIONS p), st1)
    else match subscriberConnection st1 with
         | Some sc =>
             (Return tt, record [EDriver (c_id sc) (ReqPsubscribe p (PsubscribeCb p h))] st1)
         | None => (Throw TypeError, st1)
         end.
Proof.
  destruct (setup_frame st) as (_ & Hp & _).
  unfold psubscribe, bind. rewrite (setup_run st). cbv zeta.
  rewrite Hp. destruct (map_has (psubscriptions st) p); [reflexivity|].
  unfold ret, subscriber_request.
  destruct (subscriberConnection (exec setupSubscriberConnection st)); reflexivity.
Qed.

Lemma map_has_true (m : gmap string callback) c : map_has m c = true <-> is_Some (m !! c).
Proof.
  unfold map_has. destruct (m !! c) eqn:E; split; intros H; eauto.
  - discriminate.
  - destruct H as [x Hx]. discriminate.
Qed.

(** [subscribe] and [psubscribe] leave both maps as they found them. *)
Lemma subscribe_frame c h st :
  subscriptions (exec (subscribe c h) st) = subscriptions st /\
  psubscriptions (exec (subscribe c h) st) = psubscriptions st.
Proof.
  unfold exec. rewrite subscribe_cases. cbv zeta.
  destruct (setup_frame st) as (Hs & Hp & _).
  destruct (map_has (subscriptions st) c); [simpl; auto|].
  destruct (subscriberConnection (exec setupSubscriberConnection st)); simpl; auto.
Qed.

Lemma psubscribe_frame p h st :
  subscriptions (exec (psubscribe p h) st) = subscriptions st /\
  psubscriptions (exec (psubscribe p h) st) = psubscriptions st.
Proof.
  unfold exec. rewrite psubscribe_cases. cbv zeta.
  destruct (setup_frame st) as (Hs & Hp & _).
  destruct (map_has (psubscriptions st) p); [simpl; auto|].
  destruct (subscriberConnection (exec setupSubscriberConnection st)); simpl; auto.
Qed.

End Subscribing.

(** C5.  When the channel already has a handler, [subscribe] throws the
    exception with code E_MULTIPLE_REDIS_SUBSCRIPTIONS, no request reaches
    the driver and the channel map, so the handler registered before, is
    unchanged, whatever the pattern map holds; [psubscribe] likewise on
    patterns, with E_MULTIPLE_REDIS_PSUBSCRIPTIONS, whatever the channel map
    holds. *)
Theorem duplicate_subscription_rejected
    (c p : string) (h ph h2 : callback) (st : client) :
  (subscriptions st !! c = Some h ->
   fst (subscribe c h2 st) = Throw (E_MULTIPLE_REDIS_SUBSCRIPTIONS c) /\
   driver_requests (trace (exec (subscribe c h2) st)) = driver_requests (trace st) /\
   subscriptions (exec (subscribe c h2) st) = subscriptions st /\
   subscriptions (exec (subscribe c h2) st) !! c = Some h) /\
  (psubscriptions st !! p = Some ph ->
   fst (psubscribe p h2 st) = Throw (E_MULTIPLE_REDIS_PSUBSCRIPTIONS p) /\
   driver_requests (trace (exec (psubscribe p h2) st)) = driver_requests (trace st) /\
   psubscriptions (exec (psubscribe p h2) st) = psubscriptions st /\
   psubscriptions (exec (psubscribe p h2) st) !! p = Some ph).
Proof.
  destruct (setup_frame st) as (Hs & Hps & _ & _ & _ & _ & Hreq).
  cbv zeta in Hs, Hps, Hreq.
  split.
  - intros Hc. unfold exec. rewrite subscribe_cases. cbv zeta.
    unfold map_has. rewrite Hc. simpl.
    rewrite Hs, Hreq. auto.
  - intros Hp. unfold exec. rewrite psubscribe_cases. cbv zeta.
    unfold map_has. rewrite Hp. simpl.
    rewrite Hps, Hreq. auto.
Qed.

Lemma duplicate_subscription_rejected_witness :
  subscriptions channel_only_client !! "news" = Some sports /\
  psubscriptions channel_only_client = ∅ /\
  psubscriptions subscribed_client !! "news.*" = Some weather /\
  fst (subscribe "news" weather channel_only_client)
    = Throw (E_MULTIPLE_REDIS_SUBSCRIPTIONS "news") /\
  fst (psubscribe "news.*" sports subscribed_client)
    = Throw (E_MULTIPLE_REDIS_PSUBSCRIPTIONS "news.*").
Proof.
  assert (Hc : subscriptions channel_only_client !! "news" = Some sports)
    by (vm_compute; reflexivity).
  assert (He : psubscriptions channel_only_client = ∅) by (vm_compute; reflexivity).
  assert (Hp : psubscriptions subscribed_client !! "news.*" = Some weather)
    by (vm_compute; reflexivity).
  destruct (duplicate_subscription_rejected "news" "news.*" sports weather weather
              channel_only_client) as [H1 _].
  destruct (duplicate_subscription_rejected "news" "news.*" sports weather sports
              subscribed_client) as [_ H2].
  exact (conj Hc (conj He (conj Hp (conj (proj1 (H1 Hc)) (proj1 (H2 Hp)))))).
Defined.

(** ** Handshake callbacks *)

(** C4.  On a channel without handler, [subscribe] hands the driver, on the
    subscriber connection, one subscribe request for the channel with a
    closure made of that channel and that handler, and returns.  Whenever
    the driver calls that closure with an error, 'subscription:error' is
    emitted with the error and both maps stay as they are; whenever it calls
    it without one, 'subscription:ready' is emitted with the count reported
    by the driver and the handler is stored under the channel.  [psubscribe]
    and its closure do the same with 'psubscription:error' and
    'psubscription:ready' on the pattern map.  So a call followed by its
    failed handshake leaves both maps as they were before the call, and a
    call followed by its successful handshake adds the handler to its map
    and nothing else. *)
Theorem handshake_callback_effect
    (key : string) (handler : callback) (e : string) (count : nat) (st later : client) :
  (subscriptions st !! key = None ->
   exists sc,
     subscriberConnection (exec setupSubscriberConnection st) = Some sc /\
     subscribe key handler st =
       (Return tt,
        record [EDriver (c_id sc) (ReqSubscribe key (SubscribeCb key handler))]
          (exec setupSubscriberConnection st))) /\
  (psubscriptions st !! key = None ->
   exists sc,
     subscriberConnection (exec setupSubscriberConnection st) = Some sc /\
     psubscribe key handler st =
       (Return tt,
        record [EDriver (c_id sc) (ReqPsubscribe key (PsubscribeCb key handler))]
          (exec setupSubscriberConnection st))) /\
  (let sent := step (Subscribe key handler) st in
   same_maps st sent /\
   same_maps st (step (Handshake (SubscribeCb key handler) (Some e) count) sent) /\
   subscriptions (step (Handshake (SubscribeCb key handler) None count) sent)
     = <[key := handler]> (subscriptions st) /\
   psubscriptions (step (Handshake (SubscribeCb key handler) None count) sent)
     = psubscriptions st) /\
  (let sent := step (Psubscribe key handler) st in
   same_maps st sent /\
   same_maps st (step (Handshake (PsubscribeCb key handler) (Some e) count) sent) /\
   subscriptions (step (Handshake (PsubscribeCb key handler) None count) sent)
     = subscriptions st /\
   psubscriptions (step (Handshake (PsubscribeCb key handler) None count) sent)
     = <[key := handler]> (psubscriptions st)) /\
  (let st' := exec (run_callback (SubscribeCb key handler) (Some e) count) later in
   fst (run_callback (SubscribeCb key handler) (Some e) count later) = Return tt /\
   trace st' = trace later ++ [EEmit "subscription:error" (PStr e)] /\
   microtasks st' = microtasks later ++
     [Emission "subscription:error" (PStr e)
        (Emittery.listeners "subscription:error" (bus later)) KFloating] /\
   subscriptions st' = subscriptions later /\
   psubscriptions st' = psubscriptions later) /\
  (let st' := exec (run_callback (SubscribeCb key handler) None count) later in
   fst (run_callback (SubscribeCb key handler) None count later) = Return tt /\
   trace st' = trace later ++ [EEmit "subscription:ready" (PNum count)] /\
   microtasks st' = microtasks later ++
     [Emission "subscription:ready" (PNum count)
        (Emittery.listeners "subscription:ready" (bus later)) KFloating] /\
   subscriptions st' = <[key := handler]> (subscriptions later) /\
   psubscriptions st' = psubscriptions later) /\
  (let st' := exec (run_callback (PsubscribeCb key handler) (Some e) count) later in
   fst (run_callback (PsubscribeCb key handler) (Some e) count later) = Return tt /\
   trace st' = trace later ++ [EEmit "psubscription:error" (PStr e)] /\
   microtasks st' = microtasks later ++
     [Emission "psubscription:error" (PStr e)
        (Emittery.listeners "psubscription:error" (bus later)) KFloating] /\
   subscriptions st' = subscriptions later /\
   psubscriptions st' = psubscriptions later) /\
  (let st' := exec (run_callback (PsubscribeCb key handler) None count) later in
   fst (run_callback (PsubscribeCb key handler) None count later) = Return tt /\
   trace st' = trace later ++ [EEmit "psubscription:ready" (PNum count)] /\
   microtasks st' = microtasks later ++
     [Emission "psubscription:ready" (PNum count)
        (Emittery.listeners "psubscription:ready" (bus later)) KFloating] /\
   subscriptions st' = subscriptions later /\
   psubscriptions st' = <[key := handler]> (psubscriptions later)).
Proof.
  split; [|split; [|split; [|split; [|repeat split]]]].
  - intros Hnone. destruct (setup_ensures st) as [sc Hsc]. exists sc.
    split; [exact Hsc|].
    rewrite subscribe_cases. cbv zeta. unfold map_has. rewrite Hnone, Hsc. reflexivity.
  - intros Hnone. destruct (setup_ensures st) as [sc Hsc]. exists sc.
    split; [exact Hsc|].
    rewrite psubscribe_cases. cbv zeta. unfold map_has. rewrite Hnone, Hsc. reflexivity.
  - intros sent. destruct (subscribe_frame key handler st) as [Hs Hp].
    fold (step (Subscribe key handler) st) in Hs, Hp. fold sent in Hs, Hp.
    split; [split; assumption|]. split; [split; assumption|].
    split; [rewrite <- Hs | rewrite <- Hp]; reflexivity.
  - intros sent. destruct (psubscribe_frame key handler st) as [Hs Hp].
    fold (step (Psubscribe key handler) st) in Hs, Hp. fold sent in Hs, Hp.
    split; [split; assumption|]. split; [split; assumption|].
    split; [rewrite <- Hs | rewrite <- Hp]; reflexivity.
Qed.

Lemma handshake_callback_effect_witness :
  subscriptions (wired_client Standalone) !! "news" = None /\
  psubscriptions (wired_client Standalone) !! "news.*" = None /\
  (exists sc,
     subscriberConnection (exec setupSubscriberConnection (wired_client Standalone))
       = Some sc /\
     subscribe "news" sports (wired_client Standalone) =
       (Return tt,
        record [EDriver (c_id sc) (ReqSubscribe "news" (SubscribeCb "news" sports))]
          (exec setupSubscriberConnection (wired_client Standalone)))) /\
  (exists sc,
     subscriberConnection (exec setupSubscriberConnection (wired_client Standalone))
       = Some sc /\
     psubscribe "news.*" weather (wired_client Standalone) =
       (Return tt,
        record [EDriver (c_id sc) (ReqPsubscribe "news.*" (PsubscribeCb "news.*" weather))]
          (exec setupSubscriberConnection (wired_client Standalone)))).
Proof.
  assert (H1 : subscriptions (wired_client Standalone) !! "news" = None)
    by (vm_compute; reflexivity).
  assert (H2 : psubscriptions (wired_client Standalone) !! "news.*" = None)
    by (vm_compute; reflexivity).
  destruct (handshake_callback_effect "news" sports "refused" 1
              (wired_client Standalone) (wired_client Standalone)) as (Hs & _).
  destruct (handshake_callback_effect "news.*" weather "refused" 1
              (wired_client Standalone) (wired_client Standalone)) as (_ & Hp & _).
  exact (conj H1 (conj H2 (conj (Hs H1) (Hp H2)))).
Defined.

(** ** Code that leaves the two subscription maps alone *)

Create HintDb keeps.

Section Frame.

Implicit Types (st : client).

Lemma same_maps_refl st : same_maps st st.
Proof. split; reflexivity. Qed.

Lemma same_maps_trans st1 st2 st3 :
  same_maps st1 st2 -> same_maps st2 st3 -> same_maps st1 st3.
Proof. intros [H1 H2] [H3 H4]. split; congruence. Qed.

Lemma exec_bind {A B} (m : M A) (f : A -> M B) st :
  exec (bind m f) st =
    match fst (m st) with
    | Return a => exec (f a) (exec m st)
    | Throw _ => exec m st
    end.
Proof. unfold exec, bind. destruct (m st) as [[a|e] st']; reflexivity. Qed.

Lemma keeps_bind {A B} (m : M A) (f : A -> M B) :
  keeps_maps m -> (forall a, keeps_maps (f a)) -> keeps_maps (bind m f).
Proof.
  intros Hm Hf st. rewrite exec_bind.
  destruct (fst (m st)); [|apply Hm].
  eapply same_maps_trans; [apply Hm | apply Hf].
Qed.

Lemma keeps_ret {A} (a : A) : keeps_maps (ret a).
Proof. intros st. apply same_maps_refl. Qed.

Lemma keeps_throw {A} (e : exn) : keeps_maps (@throw A e).
Proof. intros st. apply same_maps_refl. Qed.

Lemma keeps_emit name data k : keeps_maps (Emittery.emit name data k).
Proof. intros st. split; reflexivity. Qed.

Lemma keeps_clearListeners : keeps_maps Emittery.clearListeners.
Proof. intros st. split; reflexivity. Qed.

Lemma keeps_connection_on ev h : keeps_maps (connection_on ev h).
Proof. intros st. split; reflexivity. Qed.

Lemma keeps_connection_removeAllListeners : keeps_maps connection_removeAllListeners.
Proof. intros st. split; reflexivity. Qed.

Lemma keeps_call h args : keeps_maps (call h args).
Proof. intros st. split; reflexivity. Qed.

Lemma keeps_subscriber_request r : keeps_maps (subscriber_request r).
Proof.
  intros st. unfold exec, subscriber_request.
  destruct (subscriberConnection st); split; reflexivity.
Qed.

Lemma keeps_setup : keeps_maps setupSubscriberConnection.
Proof. intros st. destruct (setup_frame st) as (H1 & H2 & _). split; assumption. Qed.

#[local] Hint Resolve keeps_ret keeps_throw keeps_emit keeps_clearListeners keeps_connection_on
  keeps_connection_removeAllListeners keeps_call keeps_subscriber_request
  keeps_setup : keeps.

Lemma keeps_proxyConnectionEvents : keeps_maps proxyConnectionEvents.
Proof. unfold proxyConnectionEvents. repeat (apply keeps_bind; [|intros _]); auto with keeps. Qed.

Lemma keeps_run_native h args : keeps_maps (run_native h args).
Proof.
  destruct h; simpl; try (apply keeps_bind; [|intros _]); auto with keeps.
  - intros st. unfold exec.
    destruct (map_get (subscriptions st) (arg 0 args)) as [h|];
      [apply (keeps_call h _ st) | apply (keeps_ret tt st)].
  - intros st. unfold exec.
    destruct (map_get (psubscriptions st) (arg 0 args)) as [h|];
      [apply (keeps_call h _ st) | apply (keeps_ret tt st)].
Qed.

Lemma keeps_run_handlers hs args : keeps_maps (run_handlers hs args).
Proof.
  induction hs as [|h hs IH]; simpl; [apply keeps_ret|].
  apply keeps_bind; [apply keeps_run_native | intros _; exact IH].
Qed.

Lemma keeps_fire_primary ev args : keeps_maps (fire_primary ev args).
Proof. intros st. apply keeps_run_handlers. Qed.

Lemma keeps_fire_subscriber ev args : keeps_maps (fire_subscriber ev args).
Proof.
  intros st. unfold exec, fire_subscriber.
  destruct (subscriberConnection st) as [sc|];
    [apply (keeps_run_handlers _ _ st) | apply (keeps_ret tt st)].
Qed.

Lemma keeps_quit (s : stage) st : same_maps st (snd (quit s st)).
Proof.
  destruct s as [|[|e]|[|e]]; simpl; try (split; reflexivity).
  destruct (subscriberConnection st); split; reflexivity.
Qed.

Lemma keeps_disconnect (s : stage) st : same_maps st (snd (disconnect s st)).
Proof.
  destruct s as [|[|e]|[|e]]; simpl; try (split; reflexivity).
  destruct (subscriberConnection st); split; reflexivity.
Qed.

Lemma keeps_subscribe c h : keeps_maps (subscribe c h).
Proof. intros st. apply subscribe_frame. Qed.

Lemma keeps_psubscribe p h : keeps_maps (psubscribe p h).
Proof. intros st. apply psubscribe_frame. Qed.

(** *** The queue *)

Lemma record_nil st : record [] st = st.
Proof. destruct st. unfold record. simpl. rewrite app_nil_r. reflexivity. Qed.

Lemma record_record (es1 es2 : list effect) st :
  record es2 (record es1 st) = record (es1 ++ es2) st.
Proof. unfold record. simpl. rewrite app_assoc. reflexivity. Qed.

(** The first half of a run of the queue only calls listeners. *)
Lemma run_listeners_spec (q : list emission) st :
  run_listeners q st =
    (map (settled (bus st)) q, record (flat_map (calls (bus st)) q) st).
Proof.
  revert st. induction q as [|em q IH]; intros st.
  - simpl. rewrite record_nil. reflexivity.
  - cbn [run_listeners map flat_map]. rewrite IH. cbn [fst snd bus record].
    rewrite record_record. reflexivity.
Qed.

(** The second half, field by field. *)
Lemma run_resumes_spec (b : list (string * callback)) (q : list emission) st :
  let st' := run_resumes (map (settled b) q) st in
  trace st' = trace st ++ flat_map clears q /\
  unhandled st' = unhandled st ++ flat_map (rejections b) q /\
  bus st' = (if existsb is_primary_end q then [] else bus st) /\
  subscriptions st' = (if existsb is_subscriber_end q then ∅ else subscriptions st) /\
  psubscriptions st' = (if existsb is_subscriber_end q then ∅ else psubscriptions st) /\
  connection st' = connection st /\
  subscriberConnection st' = subscriberConnection st /\
  fresh st' = fresh st /\
  microtasks st' = microtasks st.
Proof.
  revert st. induction q as [|em q IH]; intros st.
  - simpl. rewrite !app_nil_r. repeat split.
  - cbn [map run_resumes settled flat_map existsb].
    specialize (IH (exec (resume (em_kont em)
                            (Emittery.outcome (Emittery.live em b))) st)).
    cbv zeta in IH.
    destruct IH as (Ht & Hu & Hb & Hs & Hp & Hc & Hsc & Hf & Hm).
    rewrite Ht, Hu, Hb, Hs, Hp, Hc, Hsc, Hf, Hm. clear Ht Hu Hb Hs Hp Hc Hsc Hf Hm.
    assert (Hcl : clears em = match em_kont em with
                              | KPrimaryEnd => [EClearListeners] | _ => [] end)
      by reflexivity.
    assert (Hrj : rejections b em =
                  match em_kont em, Emittery.outcome (Emittery.live em b) with
                  | KFloating, Rejected e => [e] | _, _ => [] end) by reflexivity.
    assert (Hpe : is_primary_end em = match em_kont em with
                                      | KPrimaryEnd => true | _ => false end)
      by reflexivity.
    assert (Hse : is_subscriber_end em = match em_kont em with
                                         | KSubscriberEnd => true | _ => false end)
      by reflexivity.
    rewrite Hcl, Hrj, Hpe, Hse. clear Hcl Hrj Hpe Hse.
    destruct (em_kont em); unfold exec; simpl.
    + destruct (Emittery.outcome (Emittery.live em b)); simpl;
        rewrite <- ?app_assoc; repeat split.
    + rewrite <- app_assoc. repeat split.
      destruct (existsb is_primary_end q); reflexivity.
    + repeat split; destruct (existsb is_subscriber_end q); reflexivity.
Qed.

(** A run of the queue, field by field: every emission in flight calls its
    live listeners, with the bus as it is when the run starts, and only then
    does any code that awaited an emission go on. *)
Lemma drain_spec st :
  trace (drain st) = trace st ++ flat_map (calls (bus st)) (microtasks st)
                       ++ flat_map clears (microtasks st) /\
  unhandled (drain st) = unhandled st ++ flat_map (rejections (bus st)) (microtasks st) /\
  bus (drain st) = (if existsb is_primary_end (microtasks st) then [] else bus st) /\
  subscriptions (drain st)
    = (if existsb is_subscriber_end (microtasks st) then ∅ else subscriptions st) /\
  psubscriptions (drain st)
    = (if existsb is_subscriber_end (microtasks st) then ∅ else psubscriptions st) /\
  connection (drain st) = connection st /\
  subscriberConnection (drain st) = subscriberConnection st /\
  fresh (drain st) = fresh st /\
  microtasks (drain st) = [].
Proof.
  unfold drain. rewrite run_listeners_spec. cbn [fst snd bus set_microtasks].
  pose proof (run_resumes_spec (bus st) (microtasks st)
                (record (flat_map (calls (bus st)) (microtasks st))
                   (set_microtasks [] st))) as H.
  cbv zeta in H. destruct H as (Ht & Hu & Hb & Hs & Hp & Hc & Hsc & Hf & Hm).
  rewrite Ht, Hu, Hb, Hs, Hp, Hc, Hsc, Hf, Hm. simpl.
  rewrite <- app_assoc. repeat split.
Qed.

Lemma existsb_subscriber_end (q : list emission) :
  existsb is_subscriber_end q = true ->
  exists em, In em q /\ em_kont em = KSubscriberEnd.
Proof.
  intros H. apply existsb_exists in H as (em & Hin & Hk). exists em.
  split; [exact Hin|]. unfold is_subscriber_end in Hk.
  destruct (em_kont em); try discriminate. reflexivity.
Qed.

(** Running the queue leaves the maps alone unless an emission in flight is
    the one awaited by the subscriber's 'end' listener; then both are
    emptied. *)
Lemma drain_maps st :
  same_maps st (drain st) \/
  ((exists em, In em (microtasks st) /\ em_kont em = KSubscriberEnd) /\
   subscriptions (drain st) = ∅ /\ psubscriptions (drain st) = ∅).
Proof.
  destruct (drain_spec st) as (_ & _ & _ & Hs & Hp & _).
  destruct (existsb is_subscriber_end (microtasks st)) eqn:E.
  - right. split; [apply existsb_subscriber_end; exact E | split; assumption].
  - left. split; assumption.
Qed.

Lemma drain_absent st (c : string) :
  subscriptions st !! c = None -> subscriptions (drain st) !! c = None.
Proof.
  intros H. destruct (drain_maps st) as [[Hs _]|(_ & Hs & _)]; rewrite Hs.
  - exact H.
  - apply lookup_empty.
Qed.

End Frame.

(** ** Unsubscribing *)

Section Unsubscribing.

Implicit Types (st : client) (c p : string).

Lemma unsubscribe_cases c st :
  unsubscribe c st =
    subscriber_request (ReqUnsubscribe c)
      (set_subscriptions (delete c (subscriptions st)) st).
Proof. reflexivity. Qed.

Lemma punsubscribe_cases p st :
  punsubscribe p st =
    subscriber_request (ReqPunsubscribe p)
      (set_psubscriptions (delete p (psubscriptions st)) st).
Proof. reflexivity. Qed.

Lemma unsubscribe_maps c st :
  subscriptions (exec (unsubscribe c) st) = delete c (subscriptions st) /\
  psubscriptions (exec (unsubscribe c) st) = psubscriptions st.
Proof.
  unfold exec. rewrite unsubscribe_cases. unfold subscriber_request. simpl.
  destruct (subscriberConnection st); split; reflexivity.
Qed.

Lemma punsubscribe_maps p st :
  subscriptions (exec (punsubscribe p) st) = subscriptions st /\
  psubscriptions (exec (punsubscribe p) st) = delete p (psubscriptions st).
Proof.
  unfold exec. rewrite punsubscribe_cases. unfold subscriber_request. simpl.
  destruct (subscriberConnection st); split; reflexivity.
Qed.

(** A message for a channel without handler is dropped: no handler is
    called and nothing is thrown. *)
Lemma message_without_handler c (msg : payload) st :
  subscriptions st !! c = None ->
  run_native OnMessage [PStr c; msg] st = (Return tt, st).
Proof. intros H. simpl. unfold arg. simpl. rewrite H. reflexivity. Qed.

End Unsubscribing.

(** C9.  Without a subscriber connection [unsubscribe] and [punsubscribe]
    do not return: the call on the absent connection raises a TypeError, and
    no request reaches the driver. *)
Theorem unsubscribe_without_subscriber_throws
    (key : string) (st : client) (Habsent : subscriberConnection st = None) :
  fst (unsubscribe key st) = Throw TypeError /\
  fst (punsubscribe key st) = Throw TypeError /\
  trace (exec (unsubscribe key) st) = trace st /\
  trace (exec (punsubscribe key) st) = trace st.
Proof.
  unfold exec. rewrite unsubscribe_cases, punsubscribe_cases.
  unfold subscriber_request. simpl. rewrite Habsent. simpl. auto.
Qed.

Lemma unsubscribe_without_subscriber_throws_witness :
  subscriberConnection (wired_client Standalone) = None /\
  fst (unsubscribe "news" (wired_client Standalone)) = Throw TypeError /\
  fst (punsubscribe "news.*" (wired_client Standalone)) = Throw TypeError.
Proof.
  assert (H : subscriberConnection (wired_client Standalone) = None) by reflexivity.
  destruct (unsubscribe_without_subscriber_throws "news" _ H) as (H1 & _).
  destruct (unsubscribe_without_subscriber_throws "news.*" _ H) as (_ & H2 & _).
  exact (conj H (conj H1 H2)).
Defined.

(** C7.  With a subscriber connection, [unsubscribe] first deletes the
    channel from the map and then sends the unsubscribe request from that
    state; it returns while the request is pending.  From then on a
    'message' event for the channel finds no handler: none is called,
    nothing is thrown and the client is unchanged. *)
Theorem unsubscribe_is_immediate
    (c : string) (sc : conn) (msg : payload) (st : client)
    (Hsub : subscriberConnection st = Some sc)
    (Hmsg : handlers_of "message" (c_listeners sc) = [OnMessage]) :
  let removed := set_subscriptions (delete c (subscriptions st)) st in
  let st' := step (Unsubscribe c) st in
  unsubscribe c st = subscriber_request (ReqUnsubscribe c) removed /\
  subscriptions removed !! c = None /\
  unsubscribe c st = (Return tt, record [EDriver (c_id sc) (ReqUnsubscribe c)] removed) /\
  subscriptions st' !! c = None /\
  trace st' = trace st ++ [EDriver (c_id sc) (ReqUnsubscribe c)] /\
  fire_subscriber "message" [PStr c; msg] st' = (Return tt, st') /\
  (forall later, subscriptions later !! c = None ->
     run_native OnMessage [PStr c; msg] later = (Return tt, later)).
Proof.
  intros removed st'.
  assert (Hrun : unsubscribe c st
                 = (Return tt, record [EDriver (c_id sc) (ReqUnsubscribe c)] removed)).
  { rewrite unsubscribe_cases. unfold subscriber_request. simpl. rewrite Hsub. reflexivity. }
  assert (Hst' : st' = record [EDriver (c_id sc) (ReqUnsubscribe c)] removed).
  { subst st'. cbn [step]. unfold exec. rewrite Hrun. reflexivity. }
  assert (Hgone : subscriptions st' !! c = None).
  { rewrite Hst'. simpl. apply lookup_delete_eq. }
  split; [apply unsubscribe_cases|].
  split; [apply lookup_delete_eq|].
  split; [exact Hrun|].
  split; [exact Hgone|].
  split; [rewrite Hst'; reflexivity|].
  split.
  - assert (Hsc : subscriberConnection st' = Some sc) by (rewrite Hst'; exact Hsub).
    unfold fire_subscriber. rewrite Hsc, Hmsg. cbn [run_handlers]. unfold bind.
    rewrite (message_without_handler c msg st' Hgone). reflexivity.
  - intros later Hl. apply message_without_handler. exact Hl.
Qed.

Lemma unsubscribe_is_immediate_witness :
  subscriberConnection subscribed_client = Some (Conn 1 subscriber_wiring) /\
  handlers_of "message" subscriber_wiring = [OnMessage] /\
  subscriptions subscribed_client !! "news" = Some sports /\
  subscriptions (step (Unsubscribe "news") subscribed_client) !! "news" = None /\
  trace (step (Unsubscribe "news") subscribed_client)
    = trace subscribed_client ++ [EDriver 1 (ReqUnsubscribe "news")] /\
  fire_subscriber "message" [PStr "news"; PStr "hello"]
    (step (Unsubscribe "news") subscribed_client)
    = (Return tt, step (Unsubscribe "news") subscribed_client).
Proof.
  assert (Hsub : subscriberConnection subscribed_client
                 = Some (Conn 1 subscriber_wiring)) by (vm_compute; reflexivity).
  assert (Hmsg : handlers_of "message" (c_listeners (Conn 1 subscriber_wiring)) = [OnMessage])
    by reflexivity.
  assert (Hreg : subscriptions subscribed_client !! "news" = Some sports)
    by (vm_compute; reflexivity).
  destruct (unsubscribe_is_immediate "news" _ (PStr "hello") subscribed_client Hsub Hmsg)
    as (_ & _ & _ & Hgone & Htrace & Hdrop & _).
  exact (conj Hsub (conj Hmsg (conj Hreg (conj Hgone (conj Htrace Hdrop))))).
Defined.

(** ** When the channel map grows *)

Section Growth.

Implicit Types (st : client) (c key : string) (h : callback).

Lemma on_maps name l st : same_maps st (Emittery.on name l st).
Proof. unfold Emittery.on. destruct (Emittery.has name l (bus st)); split; reflexivity. Qed.

Lemma handshake_maps k error count st key :
  subscriptions st !! key = None ->
  is_Some (subscriptions (exec (run_callback k error count) st) !! key) ->
  exists h, k = SubscribeCb key h /\ error = None.
Proof.
  intros Hnone [x Hx].
  destruct k as [ch h|pat h], error as [e|]; unfold exec in Hx; simpl in Hx;
    try congruence.
  destruct (decide (ch = key)) as [->|Hne].
  - exists h. split; reflexivity.
  - rewrite lookup_insert_ne in Hx by exact Hne. congruence.
Qed.

(** No step but a successful handshake of [subscribe] adds a channel. *)
Lemma step_grows (a : action) st key :
  subscriptions st !! key = None ->
  is_Some (subscriptions (step a st) !! key) ->
  exists h n, a = Handshake (SubscribeCb key h) None n.
Proof.
  intros Hnone Hsome.
  assert (Hkeep : same_maps st (step a st) -> False).
  { intros [Hs _]. rewrite Hs, Hnone in Hsome. destruct Hsome as [x Hx]. discriminate. }
  destruct a as [|name l|ch h|ch|pat h|pat|qs|ds|k error count|ev args|ev args|];
    simpl in *.
  - destruct Hkeep. apply keeps_proxyConnectionEvents.
  - destruct Hkeep. apply on_maps.
  - destruct Hkeep. apply keeps_subscribe.
  - exfalso. destruct (unsubscribe_maps ch st) as [Hs _]. rewrite Hs in Hsome.
    destruct Hsome as [x Hx]. apply lookup_delete_Some in Hx as [_ Hx]. congruence.
  - destruct Hkeep. apply keeps_psubscribe.
  - destruct Hkeep. destruct (punsubscribe_maps pat st) as [Hs Hp].
    split; [exact Hs|]. exfalso.
    rewrite Hs, Hnone in Hsome. destruct Hsome as [x Hx]. discriminate.
  - destruct Hkeep. apply keeps_quit.
  - destruct Hkeep. apply keeps_disconnect.
  - destruct (handshake_maps k error count st key Hnone Hsome) as (h & -> & ->).
    exists h, count. reflexivity.
  - destruct Hkeep. apply keeps_fire_primary.
  - destruct Hkeep. apply keeps_fire_subscriber.
  - exfalso. rewrite (drain_absent st key Hnone) in Hsome.
    destruct Hsome as [x Hx]. discriminate.
Qed.

Lemma subscribe_absent c h st :
  subscriptions st !! c = None ->
  exists sc,
    subscriberConnection (exec setupSubscriberConnection st) = Some sc /\
    subscribe c h st =
      (Return tt,
       record [EDriver (c_id sc) (ReqSubscribe c (SubscribeCb c h))]
         (exec setupSubscriberConnection st)).
Proof.
  intros Hnone. destruct (setup_ensures st) as [sc Hsc]. exists sc.
  split; [exact Hsc|].
  rewrite subscribe_cases. cbv zeta. unfold map_has. rewrite Hnone, Hsc. reflexivity.
Qed.

End Growth.

(** C10.  [subscribe] throws E_MULTIPLE_REDIS_SUBSCRIPTIONS exactly when the
    channel is in the map at the call, and no step of the client other than
    a successful handshake callback of [subscribe] adds a channel to the map.
    So, for a channel not in the map, two calls in a row both return, both
    requests reach the driver on the same subscriber connection, and once
    both handshakes have succeeded the map holds the handler of the callback
    that ran last. *)
Theorem subscribe_race
    (c : string) (h1 h2 : callback) (n1 n2 : nat) (st : client) :
  (fst (subscribe c h1 st) = Throw (E_MULTIPLE_REDIS_SUBSCRIPTIONS c)
     <-> is_Some (subscriptions st !! c)) /\
  (forall a key,
     subscriptions st !! key = None ->
     is_Some (subscriptions (step a st) !! key) ->
     exists h n, a = Handshake (SubscribeCb key h) None n) /\
  (subscriptions st !! c = None ->
   let s0 := exec setupSubscriberConnection st in
   let s2 := run [Subscribe c h1; Subscribe c h2] st in
   fst (subscribe c h1 st) = Return tt /\
   fst (subscribe c h2 (step (Subscribe c h1) st)) = Return tt /\
   (exists sc,
      subscriberConnection s0 = Some sc /\
      trace s2 = trace s0 ++
        [EDriver (c_id sc) (ReqSubscribe c (SubscribeCb c h1));
         EDriver (c_id sc) (ReqSubscribe c (SubscribeCb c h2))]) /\
   subscriptions
     (run [Handshake (SubscribeCb c h1) None n1; Handshake (SubscribeCb c h2) None n2] s2)
     !! c = Some h2 /\
   subscriptions
     (run [Handshake (SubscribeCb c h2) None n2; Handshake (SubscribeCb c h1) None n1] s2)
     !! c = Some h1).
Proof.
  split; [|split].
  - rewrite subscribe_cases. cbv zeta. rewrite <- map_has_true.
    destruct (map_has (subscriptions st) c); simpl.
    + split; reflexivity.
    + split; [|discriminate].
      destruct (subscriberConnection (exec setupSubscriberConnection st)); discriminate.
  - intros a key. apply step_grows.
  - intros Hnone s0 s2.
    destruct (subscribe_absent c h1 st Hnone) as (sc & Hsc & Hfirst).
    set (s1 := record [EDriver (c_id sc) (ReqSubscribe c (SubscribeCb c h1))] s0) in *.
    assert (Hs1 : step (Subscribe c h1) st = s1).
    { simpl. unfold exec. rewrite Hfirst. reflexivity. }
    assert (Hnone1 : subscriptions s1 !! c = None).
    { destruct (setup_frame st) as (Hs & _). cbv zeta in Hs.
      change (subscriptions s1) with (subscriptions (exec setupSubscriberConnection st)).
      rewrite Hs. exact Hnone. }
    assert (Hsc1 : subscriberConnection s1 = Some sc) by exact Hsc.
    destruct (subscribe_absent c h2 s1 Hnone1) as (sc' & Hsc' & Hsecond).
    assert (Hidle : exec setupSubscriberConnection s1 = s1).
    { unfold exec. rewrite (setup_present s1 sc Hsc1). reflexivity. }
    rewrite Hidle in Hsc', Hsecond. rewrite Hsc1 in Hsc'. injection Hsc' as <-.
    assert (Hs2 : s2 = record [EDriver (c_id sc) (ReqSubscribe c (SubscribeCb c h2))] s1).
    { subst s2. unfold run. cbn [fold_left]. rewrite Hs1.
      cbn [step]. unfold exec. rewrite Hsecond. reflexivity. }
    split; [rewrite Hfirst; reflexivity|].
    split; [rewrite Hs1, Hsecond; reflexivity|].
    split.
    { exists sc. split; [exact Hsc|]. rewrite Hs2. subst s1. simpl.
      rewrite <- app_assoc. reflexivity. }
    split.
    + unfold run. simpl. unfold exec. simpl. apply lookup_insert_eq.
    + unfold run. simpl. unfold exec. simpl. apply lookup_insert_eq.
Qed.

Lemma subscribe_race_witness :
  subscriptions (wired_client Standalone) !! "news" = None /\
  fst (subscribe "news" weather (step (Subscribe "news" sports) (wired_client Standalone)))
    = Return tt /\
  subscriptions
    (run [Handshake (SubscribeCb "news" sports) None 1;
          Handshake (SubscribeCb "news" weather) None 1]
       (run [Subscribe "news" sports; Subscribe "news" weather] (wired_client Standalone)))
    !! "news" = Some weather.
Proof.
  assert (H : subscriptions (wired_client Standalone) !! "news" = None)
    by (vm_compute; reflexivity).
  destruct (subscribe_race "news" sports weather 1 1 (wired_client Standalone))
    as (_ & _ & Hrace).
  destruct (Hrace H) as (_ & H2 & _ & H3 & _).
  exact (conj H (conj H2 H3)).
Defined.

(** ** Emissions and the microtask queue *)

Section Emissions.

Implicit Types (st : client) (name : string) (data : payload) (k : kont).


(** The same on any queue: the emissions already in flight call their
    listeners first, then the new one calls every listener registered under
    its name, and only then does the code awaiting any of them go on. *)
Lemma drain_after_emit name data k st :
  let ls := Emittery.listeners name (bus st) in
  let st' := drain (exec (Emittery.emit name data k) st) in
  trace st' = trace st ++
    EEmit name data :: flat_map (calls (bus st)) (microtasks st) ++
    map (fun l => EListener name l data) ls ++
    flat_map clears (microtasks st) ++
    match k with KPrimaryEnd => [EClearListeners] | _ => [] end /\
  unhandled st' = unhandled st ++
    flat_map (rejections (bus st)) (microtasks st) ++
    match k, Emittery.outcome ls with
    | KFloating, Rejected e => [e]
    | _, _ => []
    end /\
  bus st' =
    (if existsb is_primary_end (microtasks st) then []
     else match k with KPrimaryEnd => [] | _ => bus st end) /\
  connection st' = connection st /\
  subscriberConnection st' = subscriberConnection st /\
  microtasks st' = [].
Proof.
  intros ls st'.
  destruct (drain_spec (exec (Emittery.emit name data k) st))
    as (Ht & Hu & Hb & _ & _ & Hc & Hsc & _ & Hm).
  fold st' in Ht, Hu, Hb, Hc, Hsc, Hm.
  change (microtasks (exec (Emittery.emit name data k) st))
    with (microtasks st ++ [Emission name data ls k]) in Ht, Hu, Hb.
  change (bus (exec (Emittery.emit name data k) st)) with (bus st) in Ht, Hu, Hb.
  change (trace (exec (Emittery.emit name data k) st))
    with (trace st ++ [EEmit name data]) in Ht.
  rewrite !flat_map_app in Ht. rewrite flat_map_app in Hu. rewrite existsb_app in Hb.
  cbn [flat_map] in Ht, Hu. cbn [existsb] in Hb. rewrite !app_nil_r in Ht.
  rewrite app_nil_r in Hu. rewrite orb_false_r in Hb.
  unfold calls in Ht at 2. unfold rejections in Hu at 2.
  subst ls. rewrite live_snapshot in Ht, Hu.
  cbn [em_name em_data em_kont] in Ht, Hu.
  split; [|split; [|split; [|auto]]].
  - rewrite Ht, <- !app_assoc. reflexivity.
  - exact Hu.
  - rewrite Hb. unfold is_primary_end at 2. cbn [em_kont].
    destruct (existsb is_primary_end (microtasks st)); [reflexivity|].
    destruct k; reflexivity.
Qed.

Lemma emitted_nothing {A} (m : M A) st :
  microtasks (exec m st) = microtasks st -> emitted m st = [].
Proof. intros H. unfold emitted. rewrite H. apply drop_all. Qed.

Lemma emitted_one {A} (m : M A) st (em : emission) :
  microtasks (exec m st) = microtasks st ++ [em] -> emitted m st = [em].
Proof. intros H. unfold emitted. rewrite H. apply drop_app_length. Qed.

(** What each closure registered on a connection emits, and what becomes
    of the promise. *)
Lemma emitted_run_native (h : native_handler) (args : list payload) st :
  emitted (run_native h args) st =
    match h with
    | Proxy0 name => [Emission name PUndefined (Emittery.listeners name (bus st)) KFloating]
    | Proxy1 name => [Emission name (arg 0 args) (Emittery.listeners name (bus st)) KFloating]
    | ProxyNodeError =>
        [Emission "node:error" (PNodeError (arg 0 args) (arg 1 args))
           (Emittery.listeners "node:error" (bus st)) KFloating]
    | PrimaryEnd =>
        [Emission "end" PUndefined (Emittery.listeners "end" (bus st)) KPrimaryEnd]
    | SubscriberEnd =>
        [Emission "subscriber:end" PUndefined
           (Emittery.listeners "subscriber:end" (bus st)) KSubscriberEnd]
    | OnMessage | OnPMessage => []
    end.
Proof.
  destruct h; try (apply emitted_one; reflexivity); apply emitted_nothing;
    unfold exec; simpl.
  - destruct (map_get (subscriptions st) (arg 0 args)); reflexivity.
  - destruct (map_get (psubscriptions st) (arg 0 args)); reflexivity.
Qed.

Lemma emitted_run_callback (cb : handshake_callback) (error : option string) (count : nat) st :
  emitted (run_callback cb error count) st =
    match cb, error with
    | SubscribeCb _ _, Some e =>
        [Emission "subscription:error" (PStr e)
           (Emittery.listeners "subscription:error" (bus st)) KFloating]
    | SubscribeCb _ _, None =>
        [Emission "subscription:ready" (PNum count)
           (Emittery.listeners "subscription:ready" (bus st)) KFloating]
    | PsubscribeCb _ _, Some e =>
        [Emission "psubscription:error" (PStr e)
           (Emittery.listeners "psubscription:error" (bus st)) KFloating]
    | PsubscribeCb _ _, None =>
        [Emission "psubscription:ready" (PNum count)
           (Emittery.listeners "psubscription:ready" (bus st)) KFloating]
    end.
Proof. destruct cb, error; apply emitted_one; reflexivity. Qed.

Lemma handlers_of_app ev (l1 l2 : list (string * native_handler)) :
  handlers_of ev (l1 ++ l2) = handlers_of ev l1 ++ handlers_of ev l2.
Proof.
  induction l1 as [|[ev' h] l1 IH]; [reflexivity|].
  simpl. destruct (String.eqb ev' ev); simpl; rewrite IH; reflexivity.
Qed.

Lemma proxyConnectionEvents_wiring st :
  c_listeners (connection (exec proxyConnectionEvents st))
  = c_listeners (connection st) ++ primary_wiring.
Proof.
  unfold exec, proxyConnectionEvents, bind, connection_on, modify. simpl.
  repeat rewrite <- app_assoc. reflexivity.
Qed.

End Emissions.

(** ** The primary connection *)

(** C3, as the code has it.  [$proxyConnectionEvents] does not look at the
    topology: on every client, standalone or cluster, it appends the same
    nine listeners, among them '+node', '-node' and 'node error', which emit
    'node:added' and 'node:removed' with the node and 'node:error' with the
    error and the address. *)
Theorem node_events_wired_for_every_topology
    (t : topology) (node error address : payload) (st : client) :
  c_listeners (connection (exec proxyConnectionEvents st))
    = c_listeners (connection st) ++ primary_wiring /\
  handlers_of "+node" (c_listeners (connection (exec proxyConnectionEvents st)))
    = handlers_of "+node" (c_listeners (connection st)) ++ [Proxy1 "node:added"] /\
  handlers_of "-node" (c_listeners (connection (exec proxyConnectionEvents st)))
    = handlers_of "-node" (c_listeners (connection st)) ++ [Proxy1 "node:removed"] /\
  handlers_of "node error" (c_listeners (connection (exec proxyConnectionEvents st)))
    = handlers_of "node error" (c_listeners (connection st)) ++ [ProxyNodeError] /\
  topology_of (wired_client t) = t /\
  c_listeners (connection (wired_client t)) = primary_wiring /\
  handlers_of "+node" primary_wiring = [Proxy1 "node:added"] /\
  handlers_of "-node" primary_wiring = [Proxy1 "node:removed"] /\
  handlers_of "node error" primary_wiring = [ProxyNodeError] /\
  emitted (fire_primary "+node" [node]) (wired_client t)
    = [Emission "node:added" node [] KFloating] /\
  emitted (fire_primary "-node" [node]) (wired_client t)
    = [Emission "node:removed" node [] KFloating] /\
  emitted (fire_primary "node error" [error; address]) (wired_client t)
    = [Emission "node:error" (PNodeError error address) [] KFloating].
Proof.
  split; [apply proxyConnectionEvents_wiring|].
  rewrite proxyConnectionEvents_wiring, !handlers_of_app.
  destruct t; repeat split.
Qed.

(** C3, refuted as stated: on a standalone client the three node listeners
    are installed, and a '+node' notification is turned into 'node:added'. *)
Lemma standalone_has_node_wiring :
  topology_of (wired_client Standalone) = Standalone /\
  handlers_of "+node" (c_listeners (connection (wired_client Standalone)))
    = [Proxy1 "node:added"] /\
  handlers_of "-node" (c_listeners (connection (wired_client Standalone)))
    = [Proxy1 "node:removed"] /\
  handlers_of "node error" (c_listeners (connection (wired_client Standalone)))
    = [ProxyNodeError] /\
  trace (step (PrimaryEvent "+node" [PStr "10.0.0.7:6379"]) (wired_client Standalone))
    = [EEmit "node:added" (PStr "10.0.0.7:6379")].
Proof. repeat split. Qed.



(** ** The subscriber connection *)

Section SubscriberEnd.

Implicit Types (st : client).




End SubscriberEnd.




(** ** Shutting down *)

Section Shutdown.

Implicit Types (st : client).

(** A channel leaves the map only through its own [unsubscribe] or when
    the emission of 'subscriber:end' settles. *)
Lemma step_shrinks (a : action) st (key : string) (h : callback) :
  subscriptions st !! key = Some h ->
  subscriptions (step a st) !! key = None ->
  a = Unsubscribe key \/
  (a = Microtasks /\ exists em, In em (microtasks st) /\ em_kont em = KSubscriberEnd).
Proof.
  intros Hsome Hnone.
  assert (Hkeep : same_maps st (step a st) -> False).
  { intros [Hs _]. rewrite Hs in Hnone. congruence. }
  destruct a as [|name l|ch h'|ch|pat h'|pat|qs|ds|k error count|ev args|ev args|];
    simpl in *.
  - destruct Hkeep. apply keeps_proxyConnectionEvents.
  - destruct Hkeep. apply on_maps.
  - destruct Hkeep. apply keeps_subscribe.
  - left. destruct (unsubscribe_maps ch st) as [Hs _]. rewrite Hs in Hnone.
    destruct (decide (ch = key)) as [->|Hne]; [reflexivity|].
    rewrite lookup_delete_ne in Hnone by exact Hne. congruence.
  - destruct Hkeep. apply keeps_psubscribe.
  - destruct Hkeep. destruct (punsubscribe_maps pat st) as [Hs Hp].
    split; [exact Hs|]. rewrite Hs in Hnone. congruence.
  - destruct Hkeep. apply keeps_quit.
  - destruct Hkeep. apply keeps_disconnect.
  - exfalso. destruct k as [ch h'|pat h'], error as [e|]; unfold exec in Hnone;
      simpl in Hnone; try congruence.
    destruct (decide (ch = key)) as [->|Hne].
    + rewrite lookup_insert_eq in Hnone. discriminate.
    + rewrite lookup_insert_ne in Hnone by exact Hne. congruence.
  - destruct Hkeep. apply keeps_fire_primary.
  - destruct Hkeep. apply keeps_fire_subscriber.
  - right. split; [reflexivity|].
    destruct (drain_maps st) as [[Hs _]|(Hex & _)]; [|exact Hex].
    exfalso. rewrite Hs in Hnone. congruence.
Qed.

(** The pattern map, likewise. *)
Lemma step_pattern_grows (a : action) st (key : string) :
  psubscriptions st !! key = None ->
  is_Some (psubscriptions (step a st) !! key) ->
  exists h n, a = Handshake (PsubscribeCb key h) None n.
Proof.
  intros Hnone Hsome.
  assert (Hkeep : same_maps st (step a st) -> False).
  { intros [_ Hp]. rewrite Hp, Hnone in Hsome. destruct Hsome as [x Hx]. discriminate. }
  destruct a as [|name l|ch h|ch|pat h|pat|qs|ds|k error count|ev args|ev args|];
    cbn [step] in *.
  - destruct Hkeep. apply keeps_proxyConnectionEvents.
  - destruct Hkeep. apply on_maps.
  - destruct Hkeep. apply keeps_subscribe.
  - exfalso. destruct (unsubscribe_maps ch st) as [_ Hp]. rewrite Hp, Hnone in Hsome.
    destruct Hsome as [x Hx]. discriminate.
  - destruct Hkeep. apply keeps_psubscribe.
  - exfalso. destruct (punsubscribe_maps pat st) as [_ Hp]. rewrite Hp in Hsome.
    destruct Hsome as [x Hx]. apply lookup_delete_Some in Hx as [_ Hx]. congruence.
  - destruct Hkeep. apply keeps_quit.
  - destruct Hkeep. apply keeps_disconnect.
  - destruct Hsome as [x Hx].
    destruct k as [ch h|pat h], error as [e|]; unfold exec in Hx; simpl in Hx;
      try congruence.
    destruct (decide (pat = key)) as [->|Hne].
    + exists h, count. reflexivity.
    + rewrite lookup_insert_ne in Hx by exact Hne. congruence.
  - destruct Hkeep. apply keeps_fire_primary.
  - destruct Hkeep. apply keeps_fire_subscriber.
  - exfalso. destruct Hsome as [x Hx].
    destruct (drain_maps st) as [[_ Hp]|(_ & _ & Hp)]; rewrite Hp in Hx.
    + congruence.
    + rewrite lookup_empty in Hx. discriminate.
Qed.

Lemma step_pattern_shrinks (a : action) st (key : string) (h : callback) :
  psubscriptions st !! key = Some h ->
  psubscriptions (step a st) !! key = None ->
  a = Punsubscribe key \/
  (a = Microtasks /\ exists em, In em (microtasks st) /\ em_kont em = KSubscriberEnd).
Proof.
  intros Hsome Hnone.
  assert (Hkeep : same_maps st (step a st) -> False).
  { intros [_ Hp]. rewrite Hp in Hnone. congruence. }
  destruct a as [|name l|ch h'|ch|pat h'|pat|qs|ds|k error count|ev args|ev args|];
    cbn [step] in *.
  - destruct Hkeep. apply keeps_proxyConnectionEvents.
  - destruct Hkeep. apply on_maps.
  - destruct Hkeep. apply keeps_subscribe.
  - exfalso. destruct (unsubscribe_maps ch st) as [_ Hp]. rewrite Hp in Hnone. congruence.
  - destruct Hkeep. apply keeps_psubscribe.
  - left. destruct (punsubscribe_maps pat st) as [_ Hp]. rewrite Hp in Hnone.
    destruct (decide (pat = key)) as [->|Hne]; [reflexivity|].
    rewrite lookup_delete_ne in Hnone by exact Hne. congruence.
  - destruct Hkeep. apply keeps_quit.
  - destruct Hkeep. apply keeps_disconnect.
  - exfalso. destruct k as [ch h'|pat h'], error as [e|]; unfold exec in Hnone;
      simpl in Hnone; try congruence.
    destruct (decide (pat = key)) as [->|Hne].
    + rewrite lookup_insert_eq in Hnone. discriminate.
    + rewrite lookup_insert_ne in Hnone by exact Hne. congruence.
  - destruct Hkeep. apply keeps_fire_primary.
  - destruct Hkeep. apply keeps_fire_subscriber.
  - right. split; [reflexivity|].
    destruct (drain_maps st) as [[_ Hp]|(Hex & _)]; [|exact Hex].
    exfalso. rewrite Hp in Hnone. congruence.
Qed.

(** The trace only grows. *)
Lemma exec_extends_bind {A B} (m : M A) (f : A -> M B) st :
  (forall s, exists es, trace (exec m s) = trace s ++ es) ->
  (forall a s, exists es, trace (exec (f a) s) = trace s ++ es) ->
  exists es, trace (exec (bind m f) st) = trace st ++ es.
Proof.
  intros Hm Hf. rewrite exec_bind. destruct (Hm st) as [es1 H1].
  destruct (fst (m st)) as [a|e]; [|exists es1; exact H1].
  destruct (Hf a (exec m st)) as [es2 H2]. exists (es1 ++ es2).
  rewrite H2, H1, app_assoc. reflexivity.
Qed.

Lemma run_native_extends (h : native_handler) (args : list payload) st :
  exists es, trace (exec (run_native h args) st) = trace st ++ es.
Proof.
  destruct h; unfold exec; simpl; try (eexists; reflexivity).
  - exists [ERemoveAllListeners (c_id (connection st)); EEmit "end" PUndefined].
    rewrite <- app_assoc. reflexivity.
  - destruct (map_get (subscriptions st) (arg 0 args)) as [h|];
      [eexists; reflexivity | exists []; symmetry; apply app_nil_r].
  - destruct (map_get (psubscriptions st) (arg 0 args)) as [h|];
      [eexists; reflexivity | exists []; symmetry; apply app_nil_r].
  - exists [ERemoveAllListeners (c_id (connection st)); EEmit "subscriber:end" PUndefined].
    rewrite <- app_assoc. reflexivity.
Qed.

Lemma run_handlers_extends (hs : list native_handler) (args : list payload) st :
  exists es, trace (exec (run_handlers hs args) st) = trace st ++ es.
Proof.
  revert st. induction hs as [|h hs IH]; intros st.
  - exists []. symmetry. apply app_nil_r.
  - simpl. apply exec_extends_bind; [apply run_native_extends | intros _; exact IH].
Qed.

Lemma setup_extends st :
  exists es, trace (exec setupSubscriberConnection st) = trace st ++ es.
Proof.
  unfold exec, setupSubscriberConnection. destruct (subscriberConnection st); simpl.
  - exists []. symmetry. apply app_nil_r.
  - eexists. reflexivity.
Qed.

Ltac no_effect := exists []; rewrite app_nil_r; reflexivity.

Lemma step_extends (a : action) st : exists es, trace (step a st) = trace st ++ es.
Proof.
  destruct a as [|name l|c h|c|p h|p|qs|ds|k error count|ev args|ev args|]; cbn [step].
  - exists []. rewrite app_nil_r. reflexivity.
  - exists []. rewrite app_nil_r. unfold Emittery.on.
    destruct (Emittery.has name l (bus st)); reflexivity.
  - unfold exec. rewrite subscribe_cases. cbv zeta.
    destruct (setup_extends st) as [es Hes].
    destruct (map_has (subscriptions st) c); [exists es; exact Hes|].
    destruct (subscriberConnection (exec setupSubscriberConnection st));
      [|exists es; exact Hes].
    eexists. simpl. rewrite Hes, <- app_assoc. reflexivity.
  - unfold exec. rewrite unsubscribe_cases. unfold subscriber_request. simpl.
    destruct (subscriberConnection st); [eexists; reflexivity | no_effect].
  - unfold exec. rewrite psubscribe_cases. cbv zeta.
    destruct (setup_extends st) as [es Hes].
    destruct (map_has (psubscriptions st) p); [exists es; exact Hes|].
    destruct (subscriberConnection (exec setupSubscriberConnection st));
      [|exists es; exact Hes].
    eexists. simpl. rewrite Hes, <- app_assoc. reflexivity.
  - unfold exec. rewrite punsubscribe_cases. unfold subscriber_request. simpl.
    destruct (subscriberConnection st); [eexists; reflexivity | no_effect].
  - destruct qs as [|[|e]|[|e]]; simpl; try (no_effect);
      [eexists; reflexivity|].
    destruct (subscriberConnection st); [eexists; reflexivity | no_effect].
  - destruct ds as [|[|e]|[|e]]; simpl; try (no_effect);
      [eexists; reflexivity|].
    destruct (subscriberConnection st); [eexists; reflexivity | no_effect].
  - destruct k, error; unfold exec; simpl; eexists; reflexivity.
  - apply run_handlers_extends.
  - unfold exec, fire_subscriber. destruct (subscriberConnection st);
      [apply run_handlers_extends | no_effect].
  - destruct (drain_spec st) as (Ht & _). eexists. exact Ht.
Qed.

Lemma run_extends (l : list action) st : exists es, trace (run l st) = trace st ++ es.
Proof.
  revert st. induction l as [|a l IH]; intros st.
  - exists []. symmetry. apply app_nil_r.
  - destruct (step_extends a st) as [es1 H1].
    destruct (IH (step a st)) as [es2 H2]. exists (es1 ++ es2).
    change (run (a :: l) st) with (run l (step a st)).
    rewrite H2, H1, app_assoc. reflexivity.
Qed.

End Shutdown.

(** C8.  [quit] sends the quit request to the primary connection and waits
    for it; whatever happens in between, only when that promise is fulfilled
    does it read [subscriberConnection] and, if there is one then, send the
    quit request to it and wait for it; a rejection of either promise ends
    the method with it.  [disconnect] does the same with the disconnect
    request.  No piece of either method changes a map: a channel or a
    pattern leaves its map only through its own [unsubscribe] or
    [punsubscribe], or when the code awaiting 'subscriber:end' in the
    subscriber's 'end' listener goes on, which empties both maps. *)
Theorem shutdown_order_and_frame
    (r1 r2 ended : settle) (s : stage) (l : list action) (a : action)
    (key : string) (h : callback) (st : client) :
  (quit Called st = (Awaiting, record [EDriver (c_id (connection st)) ReqQuit] st) /\
   quit (FirstSettled r1) st =
     match r1, subscriberConnection st with
     | Rejected e, _ => (Finished (Throw (Thrown e)), st)
     | Fulfilled, Some sc => (Awaiting, record [EDriver (c_id sc) ReqQuit] st)
     | Fulfilled, None => (Finished (Return tt), st)
     end /\
   quit (SecondSettled r2) st =
     (Finished match r2 with Fulfilled => Return tt | Rejected e => Throw (Thrown e) end,
      st)) /\
  (disconnect Called st
     = (Awaiting, record [EDriver (c_id (connection st)) ReqDisconnect] st) /\
   disconnect (FirstSettled r1) st =
     match r1, subscriberConnection st with
     | Rejected e, _ => (Finished (Throw (Thrown e)), st)
     | Fulfilled, Some sc => (Awaiting, record [EDriver (c_id sc) ReqDisconnect] st)
     | Fulfilled, None => (Finished (Return tt), st)
     end /\
   disconnect (SecondSettled r2) st =
     (Finished match r2 with Fulfilled => Return tt | Rejected e => Throw (Thrown e) end,
      st)) /\
  (exists during,
     let waiting := run l (step (Quit Called) st) in
     trace waiting = trace st ++ EDriver (c_id (connection st)) ReqQuit :: during /\
     trace (step (Quit (FirstSettled r1)) waiting) =
       trace st ++ EDriver (c_id (connection st)) ReqQuit :: during ++
       match r1, subscriberConnection waiting with
       | Fulfilled, Some sc => [EDriver (c_id sc) ReqQuit]
       | _, _ => []
       end) /\
  (exists during,
     let waiting := run l (step (Disconnect Called) st) in
     trace waiting = trace st ++ EDriver (c_id (connection st)) ReqDisconnect :: during /\
     trace (step (Disconnect (FirstSettled r1)) waiting) =
       trace st ++ EDriver (c_id (connection st)) ReqDisconnect :: during ++
       match r1, subscriberConnection waiting with
       | Fulfilled, Some sc => [EDriver (c_id sc) ReqDisconnect]
       | _, _ => []
       end) /\
  same_maps st (snd (quit s st)) /\
  same_maps st (snd (disconnect s st)) /\
  (subscriptions st !! key = Some h ->
   subscriptions (step a st) !! key = None ->
   a = Unsubscribe key \/
   (a = Microtasks /\ exists em, In em (microtasks st) /\ em_kont em = KSubscriberEnd)) /\
  (psubscriptions st !! key = Some h ->
   psubscriptions (step a st) !! key = None ->
   a = Punsubscribe key \/
   (a = Microtasks /\ exists em, In em (microtasks st) /\ em_kont em = KSubscriberEnd)) /\
  subscriptions (exec (resume KSubscriberEnd ended) st) = ∅ /\
  psubscriptions (exec (resume KSubscriberEnd ended) st) = ∅.
Proof.
  split; [|split; [|split; [|split]]].
  - split; [reflexivity|]. split; [|destruct r2; reflexivity].
    unfold quit. destruct r1; [|reflexivity].
    destruct (subscriberConnection st); reflexivity.
  - split; [reflexivity|]. split; [|destruct r2; reflexivity].
    unfold disconnect. destruct r1; [|reflexivity].
    destruct (subscriberConnection st); reflexivity.
  - destruct (run_extends l (step (Quit Called) st)) as [during Hd].
    change (trace (step (Quit Called) st))
      with (trace st ++ [EDriver (c_id (connection st)) ReqQuit]) in Hd.
    rewrite <- app_assoc in Hd. cbn [app] in Hd.
    exists during. cbv zeta. split; [exact Hd|].
    set (waiting := run l (step (Quit Called) st)) in *.
    cbn [step]. unfold quit. destruct r1 as [|e]; cbn [snd].
    + destruct (subscriberConnection waiting); cbn [snd record trace].
      * rewrite Hd, <- app_assoc. reflexivity.
      * rewrite Hd, app_nil_r. reflexivity.
    + rewrite Hd, app_nil_r. reflexivity.
  - destruct (run_extends l (step (Disconnect Called) st)) as [during Hd].
    change (trace (step (Disconnect Called) st))
      with (trace st ++ [EDriver (c_id (connection st)) ReqDisconnect]) in Hd.
    rewrite <- app_assoc in Hd. cbn [app] in Hd.
    exists during. cbv zeta. split; [exact Hd|].
    set (waiting := run l (step (Disconnect Called) st)) in *.
    cbn [step]. unfold disconnect. destruct r1 as [|e]; cbn [snd].
    + destruct (subscriberConnection waiting); cbn [snd record trace].
      * rewrite Hd, <- app_assoc. reflexivity.
      * rewrite Hd, app_nil_r. reflexivity.
    + rewrite Hd, app_nil_r. reflexivity.
  - split; [apply keeps_quit|]. split; [apply keeps_disconnect|].
    split; [apply step_shrinks|]. split; [apply step_pattern_shrinks|].
    split; reflexivity.
Qed.

Lemma shutdown_order_and_frame_witness :
  psubscriptions subscribed_client !! "news.*" = Some weather /\
  psubscriptions (step (Punsubscribe "news.*") subscribed_client) !! "news.*" = None /\
  (Punsubscribe "news.*" = Punsubscribe "news.*" \/
   (Punsubscribe "news.*" = Microtasks /\
    exists em, In em (microtasks subscribed_client) /\ em_kont em = KSubscriberEnd)) /\
  quit (FirstSettled Fulfilled) (step (Quit Called) subscribed_client) =
    match Fulfilled, subscriberConnection (step (Quit Called) subscribed_client) with
    | Rejected e, _ => (Finished (Throw (Thrown e)), step (Quit Called) subscribed_client)
    | Fulfilled, Some sc =>
        (Awaiting, record [EDriver (c_id sc) ReqQuit] (step (Quit Called) subscribed_client))
    | Fulfilled, None => (Finished (Return tt), step (Quit Called) subscribed_client)
    end.
Proof.
  assert (H1 : psubscriptions subscribed_client !! "news.*" = Some weather)
    by (vm_compute; reflexivity).
  assert (H2 : psubscriptions (step (Punsubscribe "news.*") subscribed_client) !! "news.*"
               = None) by (vm_compute; reflexivity).
  destruct (shutdown_order_and_frame Fulfilled Fulfilled Fulfilled Called []
              (Punsubscribe "news.*") "news.*" weather subscribed_client)
    as (_ & _ & _ & _ & _ & _ & _ & Honly & _).
  destruct (shutdown_order_and_frame Fulfilled Fulfilled Fulfilled Called []
              (Punsubscribe "news.*") "news.*" weather (step (Quit Called) subscribed_client))
    as ((_ & Hq & _) & _).
  exact (conj H1 (conj H2 (conj (Honly H1 H2) Hq))).
Defined.

(** ** Listener failures *)

(** C1, as the code has it.  Whatever is in flight, an emission invokes
    every listener registered under its name, a failing listener included
    and whatever the listeners before it did, before any code awaiting an
    emission goes on.  The failure is caught and dropped only where the
    promise of [emit] is awaited inside [try]: of all the emissions of the
    class these are 'end' and 'subscriber:end'.  The promise of every other
    emission is neither awaited nor caught, and a failing listener leaves it
    rejected and unhandled. *)
Theorem listener_errors_caught_only_on_end
    (name : string) (data : payload) (k : kont) (args : list payload)
    (cb : handshake_callback) (e : string) (count : nat) (st : client) :
  let ls := Emittery.listeners name (bus st) in
  let st' := drain (exec (Emittery.emit name data k) st) in
  (trace st' = trace st ++
     EEmit name data :: flat_map (calls (bus st)) (microtasks st) ++
     map (fun l => EListener name l data) ls ++
     flat_map clears (microtasks st) ++
     match k with KPrimaryEnd => [EClearListeners] | _ => [] end) /\
  (unhandled st' = unhandled st ++
     flat_map (rejections (bus st)) (microtasks st) ++
     match k, Emittery.outcome ls with
     | KFloating, Rejected e => [e]
     | _, _ => []
     end) /\
  emission_sites (primary_wiring ++ subscriber_wiring) args st =
    [("connect", false); ("ready", false); ("error", false); ("close", false);
     ("reconnecting", false); ("node:added", false); ("node:removed", false);
     ("node:error", false); ("end", true);
     ("subscriber:connect", false); ("subscriber:ready", false);
     ("subscriber:error", false); ("subscriber:close", false);
     ("subscriber:reconnecting", false); ("subscriber:end", true)] /\
  Forall (fun em => caught em = false)
    (emitted (run_callback cb (Some e) count) st ++ emitted (run_callback cb None count) st).
Proof.
  intros ls st'.
  destruct (drain_after_emit name data k st) as (Ht & Hu & _).
  split; [exact Ht|]. split; [exact Hu|]. split.
  - unfold emission_sites, primary_wiring, subscriber_wiring.
    cbn [app flat_map snd]. rewrite !emitted_run_native. reflexivity.
  - rewrite !emitted_run_callback. destruct cb; repeat constructor.
Qed.

(** C1, refuted as stated: the primary connection emits 'connect' on a
    client with a failing and a well-behaved listener on that event.  Both
    listeners are invoked, and the failure of the first is left unhandled:
    nothing at the emission site catches it. *)
Lemma connect_listener_error_not_swallowed :
  unhandled listening_client = [] /\
  trace (run [PrimaryEvent "connect" []; Microtasks] listening_client)
    = trace listening_client ++
      [EEmit "connect" PUndefined; EListener "connect" faulty PUndefined;
       EListener "connect" quiet PUndefined] /\
  unhandled (run [PrimaryEvent "connect" []; Microtasks] listening_client)
    = ["listener failed"].
Proof. vm_compute. repeat split. Qed.

(** * Further properties of the class *)

(** ** Code that leaves connections and requests alone *)

Create HintDb steady.

Section Steady.

Implicit Types (st : client).

Lemma steady_refl st : steady st st.
Proof. repeat split. Qed.

Lemma steady_trans st1 st2 st3 : steady st1 st2 -> steady st2 st3 -> steady st1 st3.
Proof.
  intros (A1 & A2 & A3 & A4 & A5) (B1 & B2 & B3 & B4 & B5).
  repeat split; congruence.
Qed.

Lemma shrinks_refl st : shrinks st st.
Proof. split; auto. Qed.

Lemma shrinks_trans st1 st2 st3 : shrinks st1 st2 -> shrinks st2 st3 -> shrinks st1 st3.
Proof. intros [A1 A2] [B1 B2]. split; auto. Qed.

Lemma same_maps_shrinks st st' : same_maps st st' -> shrinks st st'.
Proof. intros [Hs Hp]. split; intros k h; rewrite ?Hs, ?Hp; auto. Qed.

Lemma listeners_no_request name data (ls : list callback) :
  driver_requests (map (fun l => EListener name l data) ls) = [] /\
  connections_made (map (fun l => EListener name l data) ls) = [].
Proof. induction ls as [|l ls IH]; [split; reflexivity | exact IH]. Qed.

(** Effects that are neither a request nor a new connection do not count. *)
Lemma steady_record (es : list effect) st st0 :
  steady st st0 -> driver_requests es = [] -> connections_made es = [] ->
  steady st (record es st0).
Proof.
  intros H0 Hr Hc. eapply steady_trans; [exact H0|].
  unfold steady. simpl.
  rewrite driver_requests_app, connections_made_app, Hr, Hc, !app_nil_r.
  repeat split.
Qed.

Lemma keeps_steady_bind {A B} (m : M A) (f : A -> M B) :
  keeps_steady m -> (forall a, keeps_steady (f a)) -> keeps_steady (bind m f).
Proof.
  intros Hm Hf st. rewrite exec_bind.
  destruct (fst (m st)); [|apply Hm].
  eapply steady_trans; [apply Hm | apply Hf].
Qed.

Lemma keeps_steady_ret {A} (a : A) : keeps_steady (ret a).
Proof. intros st. apply steady_refl. Qed.

Lemma keeps_steady_emit name data k : keeps_steady (Emittery.emit name data k).
Proof. intros st. apply (steady_record [EEmit name data]); repeat split. Qed.

Lemma keeps_steady_clearListeners : keeps_steady Emittery.clearListeners.
Proof. intros st. apply (steady_record [EClearListeners]); repeat split. Qed.

Lemma keeps_steady_connection_on ev h : keeps_steady (connection_on ev h).
Proof. intros st. repeat split. Qed.

Lemma keeps_steady_connection_removeAllListeners :
  keeps_steady connection_removeAllListeners.
Proof.
  intros st.
  apply (steady_record [ERemoveAllListeners (c_id (connection st))]); repeat split.
Qed.

Lemma keeps_steady_call h args : keeps_steady (call h args).
Proof. intros st. apply (steady_record [EHandler h args]); repeat split. Qed.

#[local] Hint Resolve keeps_steady_ret keeps_steady_emit keeps_steady_clearListeners
  keeps_steady_connection_on keeps_steady_connection_removeAllListeners
  keeps_steady_call : steady.

Lemma keeps_steady_proxyConnectionEvents : keeps_steady proxyConnectionEvents.
Proof.
  unfold proxyConnectionEvents.
  repeat (apply keeps_steady_bind; [|intros _]); auto with steady.
Qed.

Lemma keeps_steady_run_native h args : keeps_steady (run_native h args).
Proof.
  destruct h; simpl; try (apply keeps_steady_bind; [|intros _]); auto with steady.
  - intros st. unfold exec.
    destruct (map_get (subscriptions st) (arg 0 args)) as [h|];
      [apply (keeps_steady_call h _ st) | apply steady_refl].
  - intros st. unfold exec.
    destruct (map_get (psubscriptions st) (arg 0 args)) as [h|];
      [apply (keeps_steady_call h _ st) | apply steady_refl].
Qed.

Lemma keeps_steady_run_handlers hs args : keeps_steady (run_handlers hs args).
Proof.
  induction hs as [|h hs IH]; simpl; [apply keeps_steady_ret|].
  apply keeps_steady_bind; [apply keeps_steady_run_native | intros _; exact IH].
Qed.

Lemma keeps_steady_fire_primary ev args : keeps_steady (fire_primary ev args).
Proof. intros st. apply keeps_steady_run_handlers. Qed.

Lemma keeps_steady_fire_subscriber ev args : keeps_steady (fire_subscriber ev args).
Proof.
  intros st. unfold exec, fire_subscriber.
  destruct (subscriberConnection st) as [sc|];
    [apply (keeps_steady_run_handlers _ _ st) | apply steady_refl].
Qed.

Lemma keeps_steady_run_callback k error count : keeps_steady (run_callback k error count).
Proof.
  destruct k, error; simpl; try (apply keeps_steady_bind; [|intros _]); auto with steady.
  - intros st. repeat split.
  - intros st. repeat split.
Qed.

Lemma steady_on name l st : steady st (Emittery.on name l st).
Proof. unfold Emittery.on. destruct (Emittery.has name l (bus st)); repeat split. Qed.

Lemma calls_no_request (b : list (string * callback)) (q : list emission) :
  driver_requests (flat_map (calls b) q) = [] /\
  connections_made (flat_map (calls b) q) = [].
Proof.
  induction q as [|em q [IH1 IH2]]; [split; reflexivity|].
  cbn [flat_map]. rewrite driver_requests_app, connections_made_app, IH1, IH2.
  unfold calls.
  destruct (listeners_no_request (em_name em) (em_data em) (Emittery.live em b)) as [H1 H2].
  rewrite H1, H2. split; reflexivity.
Qed.

Lemma clears_no_request (q : list emission) :
  driver_requests (flat_map clears q) = [] /\
  connections_made (flat_map clears q) = [].
Proof.
  induction q as [|em q [IH1 IH2]]; [split; reflexivity|].
  cbn [flat_map]. rewrite driver_requests_app, connections_made_app, IH1, IH2.
  unfold clears. destruct (em_kont em); split; reflexivity.
Qed.

Lemma steady_drain st : steady st (drain st).
Proof.
  destruct (drain_spec st) as (Ht & _ & _ & _ & _ & Hc & Hsc & Hf & _).
  destruct (calls_no_request (bus st) (microtasks st)) as [C1 C2].
  destruct (clears_no_request (microtasks st)) as [K1 K2].
  unfold steady. rewrite Ht, Hc, Hsc, Hf.
  rewrite !driver_requests_app, !connections_made_app, C1, C2, K1, K2, !app_nil_r.
  repeat split.
Qed.

Lemma shrinks_drain st : shrinks st (drain st).
Proof.
  destruct (drain_maps st) as [Hsame|(_ & Hs & Hp)].
  - apply same_maps_shrinks. exact Hsame.
  - split; intros k h; rewrite ?Hs, ?Hp, lookup_empty; discriminate.
Qed.

End Steady.

(** ** What every reachable client satisfies *)

Section Reachable.

Implicit Types (st : client).

Lemma well_formed_new (t : topology) : well_formed (new_client t).
Proof.
  unfold well_formed. simpl. repeat split; try constructor.
  - intros c h H. rewrite lookup_empty in H. discriminate.
  - intros p h H. rewrite lookup_empty in H. discriminate.
Qed.

(** A change that is steady and whose map entries are all accounted for by
    earlier requests keeps the client well formed. *)
Lemma well_formed_steady_maps st st' :
  well_formed st -> steady st st' ->
  (forall c h, subscriptions st' !! c = Some h ->
     In (1, ReqSubscribe c (SubscribeCb c h)) (driver_requests (trace st))) ->
  (forall p h, psubscriptions st' !! p = Some h ->
     In (1, ReqPsubscribe p (PsubscribeCb p h)) (driver_requests (trace st))) ->
  well_formed st'.
Proof.
  intros (H0 & Hsc & Hrt & Hc & Hp) (S1 & S2 & S3 & S4 & S5) Hc' Hp'.
  unfold well_formed. rewrite S1, S2, S3, S4, S5. auto.
Qed.

Lemma well_formed_steady st st' :
  well_formed st -> steady st st' -> shrinks st st' -> well_formed st'.
Proof.
  intros Hwf Hst [Hs Hp]. apply (well_formed_steady_maps st st' Hwf Hst).
  - intros c h H. destruct Hwf as (_ & _ & _ & Hc & _). auto.
  - intros p h H. destruct Hwf as (_ & _ & _ & _ & Hp'). auto.
Qed.

(** One more request, sent where it belongs. *)
Lemma well_formed_request (id : nat) (r : driver_request) st :
  well_formed st ->
  (is_pubsub r = true -> id = 1) ->
  (subscriberConnection st = None -> id = 0) ->
  well_formed (record [EDriver id r] st).
Proof.
  intros (H0 & Hsc & Hrt & Hc & Hp) Hpub Hnone.
  unfold well_formed. simpl.
  rewrite driver_requests_app, connections_made_app. simpl. rewrite app_nil_r.
  split; [exact H0|]. split; [|split; [|split]].
  - destruct (subscriberConnection st); [exact Hsc|].
    destruct Hsc as (Hf & Hm & Hz). repeat split; try assumption.
    apply Forall_app. split; [exact Hz|]. constructor; [|constructor].
    simpl. auto.
  - apply Forall_app. split; [exact Hrt|]. constructor; [|constructor]. exact Hpub.
  - intros c h H. apply in_or_app. left. auto.
  - intros p h H. apply in_or_app. left. auto.
Qed.

Lemma well_formed_setup st : well_formed st -> well_formed (exec setupSubscriberConnection st).
Proof.
  intros Hwf. destruct (subscriberConnection st) as [sc|] eqn:E.
  - unfold exec. rewrite (setup_present st sc E). exact Hwf.
  - destruct Hwf as (H0 & Hsc & Hrt & Hc & Hp). rewrite E in Hsc.
    destruct Hsc as (Hf & Hm & Hz).
    destruct (setup_frame st) as (Fs & Fp & _ & Fc & _ & _ & Fr). cbv zeta in *.
    unfold well_formed. rewrite Fs, Fp, Fc, Fr.
    split; [exact H0|]. split; [|auto].
    unfold exec, setupSubscriberConnection. rewrite E. simpl.
    rewrite Hf, connections_made_app, Hm. repeat split.
Qed.

(** A piece of [quit] or [disconnect] does nothing to the client but send
    its request, if it has one. *)
Lemma quit_state (s : stage) st :
  snd (quit s st) =
    match s with
    | Called => record [EDriver (c_id (connection st)) ReqQuit] st
    | FirstSettled Fulfilled =>
        match subscriberConnection st with
        | Some sc => record [EDriver (c_id sc) ReqQuit] st
        | None => st
        end
    | _ => st
    end.
Proof.
  destruct s as [|[|e]|[|e]]; try reflexivity.
  unfold quit. destruct (subscriberConnection st); reflexivity.
Qed.

Lemma disconnect_state (s : stage) st :
  snd (disconnect s st) =
    match s with
    | Called => record [EDriver (c_id (connection st)) ReqDisconnect] st
    | FirstSettled Fulfilled =>
        match subscriberConnection st with
        | Some sc => record [EDriver (c_id sc) ReqDisconnect] st
        | None => st
        end
    | _ => st
    end.
Proof.
  destruct s as [|[|e]|[|e]]; try reflexivity.
  unfold disconnect. destruct (subscriberConnection st); reflexivity.
Qed.

Lemma well_formed_shutdown (r : driver_request) (s : stage) st :
  is_pubsub r = false ->
  well_formed st ->
  well_formed
    match s with
    | Called => record [EDriver (c_id (connection st)) r] st
    | FirstSettled Fulfilled =>
        match subscriberConnection st with
        | Some sc => record [EDriver (c_id sc) r] st
        | None => st
        end
    | _ => st
    end.
Proof.
  intros Hr Hwf.
  assert (H0 : c_id (connection st) = 0) by apply Hwf.
  destruct s as [|[|e]|[|e]]; try exact Hwf.
  - apply well_formed_request; [exact Hwf | rewrite Hr; discriminate | auto].
  - destruct (subscriberConnection st) as [sc|] eqn:E; [|exact Hwf].
    apply well_formed_request; [exact Hwf | rewrite Hr; discriminate |].
    rewrite E. discriminate.
Qed.

Lemma well_formed_subscriber_id st sc :
  well_formed st -> subscriberConnection st = Some sc -> sc = Conn 1 subscriber_wiring.
Proof. intros (_ & Hsc & _) E. rewrite E in Hsc. apply Hsc. Qed.

Lemma well_formed_step (a : action) st :
  well_formed st -> allowed a st -> well_formed (step a st).
Proof.
  intros Hwf Hall.
  destruct a as [|name l|c h|c|p h|p|qs|ds|k error count|ev args|ev args|];
    cbn [step].
  - apply (well_formed_steady st); [exact Hwf | apply keeps_steady_proxyConnectionEvents |].
    apply same_maps_shrinks, keeps_proxyConnectionEvents.
  - apply (well_formed_steady st); [exact Hwf | apply steady_on |].
    apply same_maps_shrinks, on_maps.
  - unfold exec. rewrite subscribe_cases. cbv zeta.
    pose proof (well_formed_setup st Hwf) as Hwf1.
    destruct (map_has (subscriptions st) c); [exact Hwf1|].
    destruct (subscriberConnection (exec setupSubscriberConnection st)) as [sc|] eqn:E;
      [|exact Hwf1].
    simpl. rewrite (well_formed_subscriber_id _ sc Hwf1 E).
    apply well_formed_request; [exact Hwf1 | reflexivity |].
    rewrite E. discriminate.
  - unfold exec. rewrite unsubscribe_cases. unfold subscriber_request.
    assert (Hwf1 : well_formed (set_subscriptions (delete c (subscriptions st)) st)).
    { apply (well_formed_steady st); [exact Hwf | repeat split |].
      split; simpl; [|auto]. intros c' h H. apply lookup_delete_Some in H. apply H. }
    simpl. destruct (subscriberConnection st) as [sc|] eqn:E; [|exact Hwf1].
    simpl. rewrite (well_formed_subscriber_id _ sc Hwf E).
    apply well_formed_request; [exact Hwf1 | reflexivity |].
    simpl. rewrite E. discriminate.
  - unfold exec. rewrite psubscribe_cases. cbv zeta.
    pose proof (well_formed_setup st Hwf) as Hwf1.
    destruct (map_has (psubscriptions st) p); [exact Hwf1|].
    destruct (subscriberConnection (exec setupSubscriberConnection st)) as [sc|] eqn:E;
      [|exact Hwf1].
    simpl. rewrite (well_formed_subscriber_id _ sc Hwf1 E).
    apply well_formed_request; [exact Hwf1 | reflexivity |].
    rewrite E. discriminate.
  - unfold exec. rewrite punsubscribe_cases. unfold subscriber_request.
    assert (Hwf1 : well_formed (set_psubscriptions (delete p (psubscriptions st)) st)).
    { apply (well_formed_steady st); [exact Hwf | repeat split |].
      split; simpl; [auto|]. intros p' h H. apply lookup_delete_Some in H. apply H. }
    simpl. destruct (subscriberConnection st) as [sc|] eqn:E; [|exact Hwf1].
    simpl. rewrite (well_formed_subscriber_id _ sc Hwf E).
    apply well_formed_request; [exact Hwf1 | reflexivity |].
    simpl. rewrite E. discriminate.
  - rewrite quit_state. apply well_formed_shutdown; [reflexivity | exact Hwf].
  - rewrite disconnect_state. apply well_formed_shutdown; [reflexivity | exact Hwf].
  - destruct Hall as [id Hid].
    assert (Hone : id = 1).
    { destruct Hwf as (_ & _ & Hrt & _). rewrite Forall_forall in Hrt.
      apply list_elem_of_In in Hid. apply (Hrt _ Hid). destruct k; reflexivity. }
    subst id.
    apply (well_formed_steady_maps st); [exact Hwf | apply keeps_steady_run_callback | |].
    + intros c h H. destruct Hwf as (_ & _ & _ & Hc & _).
      destruct k as [ch hh|pat hh], error as [e|]; unfold exec in H; simpl in H; auto.
      apply lookup_insert_Some in H as [[-> ->]|[_ H]]; [exact Hid | auto].
    + intros p h H. destruct Hwf as (_ & _ & _ & _ & Hp).
      destruct k as [ch hh|pat hh], error as [e|]; unfold exec in H; simpl in H; auto.
      apply lookup_insert_Some in H as [[-> ->]|[_ H]]; [exact Hid | auto].
  - apply (well_formed_steady st); [exact Hwf | apply keeps_steady_fire_primary |].
    apply same_maps_shrinks, keeps_fire_primary.
  - apply (well_formed_steady st); [exact Hwf | apply keeps_steady_fire_subscriber |].
    apply same_maps_shrinks, keeps_fire_subscriber.
  - apply (well_formed_steady st); [exact Hwf | apply steady_drain | apply shrinks_drain].
Qed.

Lemma reachable_well_formed st : reachable st -> well_formed st.
Proof.
  induction 1 as [t|a st Hr IH Hall]; [apply well_formed_new|].
  apply well_formed_step; assumption.
Qed.

Lemma reachable_run (l : list action) st :
  reachable st -> allowed_all l st -> reachable (run l st).
Proof.
  revert st. induction l as [|a l IH]; intros st Hr Hall; [exact Hr|].
  destruct Hall as [Ha Hl]. apply (IH (step a st)); [|exact Hl].
  apply reachable_step; assumption.
Qed.

Lemma reachable_wired (t : topology) : reachable (wired_client t).
Proof. apply reachable_step; [apply reachable_new | exact I]. Qed.

Lemma reachable_subscribed_client : reachable subscribed_client.
Proof.
  apply reachable_run; [apply reachable_wired|].
  cbn [allowed_all allowed].
  repeat split; exists 1; vm_compute; tauto.
Qed.

End Reachable.

(** ** The subscriber connection, once made *)

Section Subscriber.

Implicit Types (st : client) (sc : conn).

Lemma steady_subscriber st st' sc :
  steady st st' -> subscriberConnection st = Some sc -> subscriberConnection st' = Some sc.
Proof. intros (_ & H & _) E. rewrite H. exact E. Qed.

Lemma steady_made st st' :
  steady st st' -> connections_made (trace st') = connections_made (trace st).
Proof. intros (_ & _ & _ & H & _). exact H. Qed.

Lemma record_request_made id r st :
  connections_made (trace (record [EDriver id r] st)) = connections_made (trace st).
Proof. simpl. rewrite connections_made_app. apply app_nil_r. Qed.

(** No action replaces, drops or rewires an existing subscriber
    connection, and none creates a second one. *)
Lemma step_keeps_subscriber (a : action) st sc :
  subscriberConnection st = Some sc ->
  subscriberConnection (step a st) = Some sc /\
  connections_made (trace (step a st)) = connections_made (trace st).
Proof.
  intros E.
  assert (Hsteady : steady st (step a st) ->
            subscriberConnection (step a st) = Some sc /\
            connections_made (trace (step a st)) = connections_made (trace st)).
  { intros H. split; [exact (steady_subscriber _ _ sc H E) | exact (steady_made _ _ H)]. }
  assert (Hidle : exec setupSubscriberConnection st = st).
  { unfold exec. rewrite (setup_present st sc E). reflexivity. }
  destruct a as [|name l|c h|c|p h|p|qs|ds|k error count|ev args|ev args|];
    cbn [step].
  - apply Hsteady, keeps_steady_proxyConnectionEvents.
  - apply Hsteady, steady_on.
  - unfold exec. rewrite subscribe_cases. cbv zeta. rewrite Hidle, E.
    destruct (map_has (subscriptions st) c); simpl; [auto|].
    split; [exact E | apply record_request_made].
  - unfold exec. rewrite unsubscribe_cases. unfold subscriber_request. simpl.
    rewrite E. simpl. split; [exact E | apply record_request_made].
  - unfold exec. rewrite psubscribe_cases. cbv zeta. rewrite Hidle, E.
    destruct (map_has (psubscriptions st) p); simpl; [auto|].
    split; [exact E | apply record_request_made].
  - unfold exec. rewrite punsubscribe_cases. unfold subscriber_request. simpl.
    rewrite E. simpl. split; [exact E | apply record_request_made].
  - rewrite quit_state. destruct qs as [|[|e]|[|e]]; rewrite ?E; simpl;
      rewrite ?connections_made_app; simpl; rewrite ?app_nil_r; auto.
  - rewrite disconnect_state. destruct ds as [|[|e]|[|e]]; rewrite ?E; simpl;
      rewrite ?connections_made_app; simpl; rewrite ?app_nil_r; auto.
  - apply Hsteady, keeps_steady_run_callback.
  - apply Hsteady, keeps_steady_fire_primary.
  - apply Hsteady, keeps_steady_fire_subscriber.
  - apply Hsteady, steady_drain.
Qed.

(** The 'message' and 'pmessage' events of a wired subscriber connection. *)
Lemma fire_message_wired st sc (c : string) (msg : payload) :
  subscriberConnection st = Some sc ->
  c_listeners sc = subscriber_wiring ->
  fire_subscriber "message" [PStr c; msg] st =
    match subscriptions st !! c with
    | Some h => (completion_of h, record [EHandler h [msg]] st)
    | None => (Return tt, st)
    end.
Proof.
  intros E Hw. unfold fire_subscriber. rewrite E, Hw.
  change (handlers_of "message" subscriber_wiring) with [OnMessage].
  cbn [run_handlers]. unfold bind, run_native, arg, map_get. cbn [nth].
  destruct (subscriptions st !! c) as [h|]; [|reflexivity].
  unfold call, completion_of, ret. destruct (cb_throws h); reflexivity.
Qed.

Lemma fire_pmessage_wired st sc (p : string) (channel msg : payload) :
  subscriberConnection st = Some sc ->
  c_listeners sc = subscriber_wiring ->
  fire_subscriber "pmessage" [PStr p; channel; msg] st =
    match psubscriptions st !! p with
    | Some h => (completion_of h, record [EHandler h [channel; msg]] st)
    | None => (Return tt, st)
    end.
Proof.
  intros E Hw. unfold fire_subscriber. rewrite E, Hw.
  change (handlers_of "pmessage" subscriber_wiring) with [OnPMessage].
  cbn [run_handlers]. unfold bind, run_native, arg, map_get. cbn [nth].
  destruct (psubscriptions st !! p) as [h|]; [|reflexivity].
  unfold call, completion_of, ret. destruct (cb_throws h); reflexivity.
Qed.

(** In a reachable client a non-empty map comes with a wired subscriber
    connection. *)
Lemma reachable_registered_wired st (c : string) (h : callback) :
  reachable st ->
  subscriptions st !! c = Some h \/ psubscriptions st !! c = Some h ->
  subscriberConnection st = Some (Conn 1 subscriber_wiring).
Proof.
  intros Hr Hreg. destruct (reachable_well_formed st Hr) as (_ & Hsc & _ & Hc & Hp).
  destruct (subscriberConnection st) as [sc|].
  - destruct Hsc as (-> & _). reflexivity.
  - exfalso. destruct Hsc as (_ & _ & Hz). rewrite Forall_forall in Hz.
    destruct Hreg as [H|H]; [apply Hc in H | apply Hp in H];
      apply list_elem_of_In in H; apply Hz in H; discriminate.
Qed.

End Subscriber.

(** Dispatch of the two message events in a reachable client. *)
Lemma reachable_dispatch (st : client) (c : string) (msg : payload) :
  reachable st ->
  fire_subscriber "message" [PStr c; msg] st =
    match subscriptions st !! c with
    | Some h => (completion_of h, record [EHandler h [msg]] st)
    | None => (Return tt, st)
    end.
Proof.
  intros Hr. destruct (subscriptions st !! c) as [h|] eqn:E.
  - pose proof (reachable_registered_wired st c h Hr (or_introl E)) as Hsc.
    rewrite (fire_message_wired st _ c msg Hsc eq_refl), E. reflexivity.
  - destruct (subscriberConnection st) as [sc|] eqn:Hsc.
    + destruct (reachable_well_formed st Hr) as (_ & Hw & _). rewrite Hsc in Hw.
      destruct Hw as (-> & _).
      rewrite (fire_message_wired st _ c msg Hsc eq_refl), E. reflexivity.
    + unfold fire_subscriber. rewrite Hsc. reflexivity.
Qed.

Lemma reachable_pdispatch (st : client) (p : string) (channel msg : payload) :
  reachable st ->
  fire_subscriber "pmessage" [PStr p; channel; msg] st =
    match psubscriptions st !! p with
    | Some h => (completion_of h, record [EHandler h [channel; msg]] st)
    | None => (Return tt, st)
    end.
Proof.
  intros Hr. destruct (psubscriptions st !! p) as [h|] eqn:E.
  - pose proof (reachable_registered_wired st p h Hr (or_intror E)) as Hsc.
    rewrite (fire_pmessage_wired st _ p channel msg Hsc eq_refl), E. reflexivity.
  - destruct (subscriberConnection st) as [sc|] eqn:Hsc.
    + destruct (reachable_well_formed st Hr) as (_ & Hw & _). rewrite Hsc in Hw.
      destruct Hw as (-> & _).
      rewrite (fire_pmessage_wired st _ p channel msg Hsc eq_refl), E. reflexivity.
    + unfold fire_subscriber. rewrite Hsc. reflexivity.
Qed.

Lemma reachable_ended_client : reachable ended_client.
Proof.
  apply reachable_run; [apply reachable_subscribed_client|].
  cbn [allowed_all allowed]. auto.
Qed.



(** X2.  A reachable client has made at most one subscriber connection: the
    connections made are exactly the one in [subscriberConnection], which is
    not the primary connection and carries the eight listeners of
    [$setupSubscriberConnection]; and no action, the 'end' of that
    connection included, replaces it, drops it or makes another. *)
Theorem single_subscriber_connection (st : client) (Hr : reachable st) :
  connections_made (trace st)
    = match subscriberConnection st with Some sc => [c_id sc] | None => [] end /\
  (forall sc, subscriberConnection st = Some sc ->
     c_id sc <> c_id (connection st) /\ c_listeners sc = subscriber_wiring) /\
  (forall a sc, subscriberConnection st = Some sc ->
     subscriberConnection (step a st) = Some sc /\
     connections_made (trace (step a st)) = connections_made (trace st)).
Proof.
  destruct (reachable_well_formed st Hr) as (H0 & Hsc & _).
  split; [|split].
  - destruct (subscriberConnection st) as [sc|].
    + destruct Hsc as (-> & _ & Hm). exact Hm.
    + apply Hsc.
  - intros sc E. rewrite E in Hsc. destruct Hsc as (-> & _). rewrite H0.
    split; [discriminate | reflexivity].
  - intros a sc E. apply step_keeps_subscriber. exact E.
Qed.

Lemma single_subscriber_connection_witness :
  reachable ended_client /\
  connections_made (trace ended_client)
    = match subscriberConnection ended_client with Some sc => [c_id sc] | None => [] end.
Proof.
  exact (conj reachable_ended_client
           (proj1 (single_subscriber_connection ended_client reachable_ended_client))).
Defined.

(** X3.  In a reachable client every subscribe, unsubscribe, psubscribe and
    punsubscribe request was sent on the subscriber connection, never on the
    primary one; the only requests the primary connection gets are quit and
    disconnect. *)
Theorem pubsub_requests_go_to_subscriber
    (st : client) (id : nat) (r : driver_request)
    (Hr : reachable st) (Hin : In (id, r) (driver_requests (trace st))) :
  (is_pubsub r = true ->
     subscriberConnection st = Some (Conn id subscriber_wiring) /\
     id <> c_id (connection st)) /\
  (id = c_id (connection st) -> r = ReqQuit \/ r = ReqDisconnect).
Proof.
  destruct (reachable_well_formed st Hr) as (H0 & Hsc & Hrt & _).
  rewrite Forall_forall in Hrt. apply list_elem_of_In in Hin.
  pose proof (Hrt _ Hin) as Hone. simpl in Hone.
  split.
  - intros Hp. specialize (Hone Hp). subst id. rewrite H0.
    split; [|discriminate].
    destruct (subscriberConnection st) as [sc|].
    + destruct Hsc as (-> & _). reflexivity.
    + exfalso. destruct Hsc as (_ & _ & Hz). rewrite Forall_forall in Hz.
      apply Hz in Hin. discriminate.
  - intros Hid. rewrite H0 in Hid. subst id.
    destruct r; auto; specialize (Hone eq_refl); discriminate.
Qed.

Lemma pubsub_requests_go_to_subscriber_witness :
  reachable subscribed_client /\
  In (1, ReqPsubscribe "news.*" (PsubscribeCb "news.*" weather))
    (driver_requests (trace subscribed_client)) /\
  subscriberConnection subscribed_client = Some (Conn 1 subscriber_wiring).
Proof.
  assert (Hin : In (1, ReqPsubscribe "news.*" (PsubscribeCb "news.*" weather))
                  (driver_requests (trace subscribed_client))) by (vm_compute; tauto).
  destruct (pubsub_requests_go_to_subscriber subscribed_client 1 _
              reachable_subscribed_client Hin) as [Hp _].
  exact (conj reachable_subscribed_client (conj Hin (proj1 (Hp eq_refl)))).
Defined.

(** X4.  In a reachable client every handler found in the channel map under
    a channel was passed to [subscribe] with that channel, and every handler
    in the pattern map to [psubscribe] with that pattern: the request
    carrying it was sent on the subscriber connection, which exists. *)
Theorem handlers_come_from_subscribe
    (st : client) (key : string) (h : callback) (Hr : reachable st) :
  (subscriptions st !! key = Some h ->
     exists sc, subscriberConnection st = Some sc /\
       In (c_id sc, ReqSubscribe key (SubscribeCb key h)) (driver_requests (trace st))) /\
  (psubscriptions st !! key = Some h ->
     exists sc, subscriberConnection st = Some sc /\
       In (c_id sc, ReqPsubscribe key (PsubscribeCb key h)) (driver_requests (trace st))).
Proof.
  destruct (reachable_well_formed st Hr) as (_ & _ & _ & Hc & Hp).
  split; intros H; exists (Conn 1 subscriber_wiring); split.
  - apply (reachable_registered_wired st key h Hr). left. exact H.
  - apply Hc. exact H.
  - apply (reachable_registered_wired st key h Hr). right. exact H.
  - apply Hp. exact H.
Qed.

Lemma handlers_come_from_subscribe_witness :
  reachable subscribed_client /\
  subscriptions subscribed_client !! "news" = Some sports /\
  exists sc, subscriberConnection subscribed_client = Some sc /\
    In (c_id sc, ReqSubscribe "news" (SubscribeCb "news" sports))
      (driver_requests (trace subscribed_client)).
Proof.
  assert (H : subscriptions subscribed_client !! "news" = Some sports)
    by (vm_compute; reflexivity).
  exact (conj reachable_subscribed_client
           (conj H (proj1 (handlers_come_from_subscribe subscribed_client "news" sports
                             reachable_subscribed_client) H))).
Defined.

(** X5.  In a reachable client a 'message' event for a channel calls the
    handler registered for exactly that channel, once, with the message,
    and nothing else happens; what the handler throws escapes to the
    emitter of the connection.  Without handler for the channel the message
    is dropped and the client is unchanged. *)
Theorem message_reaches_registered_handler
    (st : client) (c : string) (msg : payload) (Hr : reachable st) :
  fire_subscriber "message" [PStr c; msg] st =
    match subscriptions st !! c with
    | Some h => (completion_of h, record [EHandler h [msg]] st)
    | None => (Return tt, st)
    end.
Proof. apply reachable_dispatch. exact Hr. Qed.

Lemma message_reaches_registered_handler_witness :
  reachable subscribed_client /\
  subscriptions subscribed_client !! "news" = Some sports /\
  fire_subscriber "message" [PStr "news"; PStr "hello"] subscribed_client
    = (completion_of sports, record [EHandler sports [PStr "hello"]] subscribed_client).
Proof.
  assert (H : subscriptions subscribed_client !! "news" = Some sports)
    by (vm_compute; reflexivity).
  pose proof (message_reaches_registered_handler subscribed_client "news" (PStr "hello")
                reachable_subscribed_client) as W.
  rewrite H in W.
  exact (conj reachable_subscribed_client (conj H W)).
Defined.

(** X6.  In a reachable client a 'pmessage' event is looked up by its
    pattern, not by its channel: the handler registered for the pattern is
    called once with the channel and the message; without handler for the
    pattern the message is dropped. *)
Theorem pmessage_reaches_registered_handler
    (st : client) (p : string) (channel msg : payload) (Hr : reachable st) :
  fire_subscriber "pmessage" [PStr p; channel; msg] st =
    match psubscriptions st !! p with
    | Some h => (completion_of h, record [EHandler h [channel; msg]] st)
    | None => (Return tt, st)
    end.
Proof. apply reachable_pdispatch. exact Hr. Qed.

Lemma pmessage_reaches_registered_handler_witness :
  reachable subscribed_client /\
  psubscriptions subscribed_client !! "news.*" = Some weather /\
  fire_subscriber "pmessage" [PStr "news.*"; PStr "news.sports"; PStr "goal"]
    subscribed_client
    = (completion_of weather,
       record [EHandler weather [PStr "news.sports"; PStr "goal"]] subscribed_client).
Proof.
  assert (H : psubscriptions subscribed_client !! "news.*" = Some weather)
    by (vm_compute; reflexivity).
  pose proof (pmessage_reaches_registered_handler subscribed_client "news.*"
                (PStr "news.sports") (PStr "goal") reachable_subscribed_client) as W.
  rewrite H in W.
  exact (conj reachable_subscribed_client (conj H W)).
Defined.

(** ** Subscribing, delivering, unsubscribing *)

(** X7.  On a reachable client where the channel has no handler:
    [subscribe] followed by the successful handshake the driver owes it
    gives a client in which a message for the channel calls the handler,
    once, with the message, and in which no other channel has changed;
    after [unsubscribe] the same message calls nothing. *)
Theorem subscribe_deliver_unsubscribe
    (st : client) (c : string) (h : callback) (n : nat) (msg : payload)
    (Hr : reachable st) (Hnone : subscriptions st !! c = None) :
  let subscribed := run [Subscribe c h; Handshake (SubscribeCb c h) None n] st in
  let unsubscribed := step (Unsubscribe c) subscribed in
  allowed_all [Subscribe c h; Handshake (SubscribeCb c h) None n] st /\
  subscriptions subscribed !! c = Some h /\
  (forall c', c' <> c -> subscriptions subscribed !! c' = subscriptions st !! c') /\
  fire_subscriber "message" [PStr c; msg] subscribed
    = (completion_of h, record [EHandler h [msg]] subscribed) /\
  fire_subscriber "message" [PStr c; msg] unsubscribed = (Return tt, unsubscribed).
Proof.
  intros subscribed unsubscribed.
  destruct (subscribe_absent c h st Hnone) as (sc & Hsc & Hsub).
  assert (Hall : allowed_all [Subscribe c h; Handshake (SubscribeCb c h) None n] st).
  { cbn [allowed_all allowed step]. split; [exact I|]. split; [|exact I].
    exists (c_id sc). unfold exec. rewrite Hsub. simpl.
    rewrite driver_requests_app. apply in_or_app. right. left. reflexivity. }
  assert (Hr1 : reachable subscribed) by (apply reachable_run; assumption).
  assert (Hr2 : reachable unsubscribed) by (apply reachable_step; [exact Hr1 | exact I]).
  assert (Hmap : subscriptions subscribed = <[c := h]> (subscriptions st)).
  { subst subscribed. unfold run. cbn [fold_left step].
    destruct (subscribe_frame c h st) as [Hs _].
    change (subscriptions (exec (run_callback (SubscribeCb c h) None n)
                             (exec (subscribe c h) st)))
      with (<[c := h]> (subscriptions (exec (subscribe c h) st))).
    rewrite Hs. reflexivity. }
  assert (Hreg : subscriptions subscribed !! c = Some h).
  { rewrite Hmap. apply lookup_insert_eq. }
  assert (Hgone : subscriptions unsubscribed !! c = None).
  { subst unsubscribed. cbn [step].
    destruct (unsubscribe_maps c subscribed) as [Hs _]. rewrite Hs.
    apply lookup_delete_eq. }
  split; [exact Hall|]. split; [exact Hreg|]. split; [|split].
  - intros c' Hne. rewrite Hmap. apply lookup_insert_ne. auto.
  - rewrite (reachable_dispatch subscribed c msg Hr1), Hreg. reflexivity.
  - rewrite (reachable_dispatch unsubscribed c msg Hr2), Hgone. reflexivity.
Qed.

Lemma subscribe_deliver_unsubscribe_witness :
  reachable (wired_client Cluster) /\
  subscriptions (wired_client Cluster) !! "news" = None /\
  subscriptions
    (run [Subscribe "news" sports; Handshake (SubscribeCb "news" sports) None 1]
       (wired_client Cluster)) !! "news" = Some sports.
Proof.
  assert (H : subscriptions (wired_client Cluster) !! "news" = None)
    by (vm_compute; reflexivity).
  destruct (subscribe_deliver_unsubscribe (wired_client Cluster) "news" sports 1
              (PStr "hello") (reachable_wired Cluster) H) as (_ & Hreg & _).
  exact (conj (reachable_wired Cluster) (conj H Hreg)).
Defined.

(** X8.  The two maps are separate name spaces.  On a reachable client
    where a string is registered as a pattern but not as a channel, a
    'message' event for that string calls nothing, [subscribe] with it is
    not rejected, and [unsubscribe] of it leaves the pattern handler in
    place. *)
Theorem registries_are_independent
    (st : client) (key : string) (ph h : callback) (msg : payload)
    (Hr : reachable st)
    (Hp : psubscriptions st !! key = Some ph)
    (Hc : subscriptions st !! key = None) :
  fire_subscriber "message" [PStr key; msg] st = (Return tt, st) /\
  fst (subscribe key h st) = Return tt /\
  psubscriptions (step (Subscribe key h) st) !! key = Some ph /\
  psubscriptions (step (Unsubscribe key) st) !! key = Some ph /\
  fire_subscriber "pmessage" [PStr key; PStr key; msg] (step (Unsubscribe key) st)
    = (completion_of ph,
       record [EHandler ph [PStr key; msg]] (step (Unsubscribe key) st)).
Proof.
  assert (Hr' : reachable (step (Unsubscribe key) st))
    by (apply reachable_step; [exact Hr | exact I]).
  assert (Hp' : psubscriptions (step (Unsubscribe key) st) !! key = Some ph).
  { cbn [step]. destruct (unsubscribe_maps key st) as [_ H]. rewrite H. exact Hp. }
  split; [rewrite (reachable_dispatch st key msg Hr), Hc; reflexivity|].
  split.
  { destruct (subscribe_absent key h st Hc) as (sc & _ & Hsub). rewrite Hsub. reflexivity. }
  split.
  { cbn [step]. destruct (subscribe_frame key h st) as [_ H]. rewrite H. exact Hp. }
  split; [exact Hp'|].
  rewrite (reachable_pdispatch _ key (PStr key) msg Hr'), Hp'. reflexivity.
Qed.

Lemma registries_are_independent_witness :
  reachable subscribed_client /\
  psubscriptions subscribed_client !! "news.*" = Some weather /\
  subscriptions subscribed_client !! "news.*" = None /\
  fire_subscriber "message" [PStr "news.*"; PStr "hello"] subscribed_client
    = (Return tt, subscribed_client) /\
  fst (subscribe "news.*" quiet subscribed_client) = Return tt.
Proof.
  assert (Hp : psubscriptions subscribed_client !! "news.*" = Some weather)
    by (vm_compute; reflexivity).
  assert (Hc : subscriptions subscribed_client !! "news.*" = None)
    by (vm_compute; reflexivity).
  destruct (registries_are_independent subscribed_client "news.*" weather quiet
              (PStr "hello") reachable_subscribed_client Hp Hc) as (H1 & H2 & _).
  exact (conj reachable_subscribed_client (conj Hp (conj Hc (conj H1 H2)))).
Defined.

(** X9.  With a subscriber connection, [punsubscribe] first deletes the
    pattern from the pattern map and then sends the punsubscribe request; it
    returns while the request is pending, and from then on a 'pmessage'
    event for the pattern calls nothing and leaves the client unchanged.
    The channel map is not touched. *)
Theorem punsubscribe_takes_effect_at_once
    (p : string) (sc : conn) (channel msg : payload) (st : client)
    (Hsub : subscriberConnection st = Some sc)
    (Hmsg : handlers_of "pmessage" (c_listeners sc) = [OnPMessage]) :
  let removed := set_psubscriptions (delete p (psubscriptions st)) st in
  let st' := step (Punsubscribe p) st in
  punsubscribe p st = (Return tt, record [EDriver (c_id sc) (ReqPunsubscribe p)] removed) /\
  psubscriptions st' !! p = None /\
  subscriptions st' = subscriptions st /\
  trace st' = trace st ++ [EDriver (c_id sc) (ReqPunsubscribe p)] /\
  fire_subscriber "pmessage" [PStr p; channel; msg] st' = (Return tt, st').
Proof.
  intros removed st'.
  assert (Hrun : punsubscribe p st
                 = (Return tt, record [EDriver (c_id sc) (ReqPunsubscribe p)] removed)).
  { rewrite punsubscribe_cases. unfold subscriber_request. simpl. rewrite Hsub. reflexivity. }
  assert (Hst' : st' = record [EDriver (c_id sc) (ReqPunsubscribe p)] removed).
  { subst st'. cbn [step]. unfold exec. rewrite Hrun. reflexivity. }
  assert (Hgone : psubscriptions st' !! p = None).
  { rewrite Hst'. simpl. apply lookup_delete_eq. }
  split; [exact Hrun|]. split; [exact Hgone|].
  split; [rewrite Hst'; reflexivity|].
  split; [rewrite Hst'; reflexivity|].
  assert (Hsc : subscriberConnection st' = Some sc) by (rewrite Hst'; exact Hsub).
  unfold fire_subscriber. rewrite Hsc, Hmsg. cbn [run_handlers].
  unfold bind, run_native, arg, map_get. cbn [nth]. rewrite Hgone. reflexivity.
Qed.

Lemma punsubscribe_takes_effect_at_once_witness :
  subscriberConnection subscribed_client = Some (Conn 1 subscriber_wiring) /\
  handlers_of "pmessage" subscriber_wiring = [OnPMessage] /\
  psubscriptions subscribed_client !! "news.*" = Some weather /\
  psubscriptions (step (Punsubscribe "news.*") subscribed_client) !! "news.*" = None /\
  fire_subscriber "pmessage" [PStr "news.*"; PStr "news.sports"; PStr "goal"]
    (step (Punsubscribe "news.*") subscribed_client)
    = (Return tt, step (Punsubscribe "news.*") subscribed_client).
Proof.
  assert (Hsub : subscriberConnection subscribed_client
                 = Some (Conn 1 subscriber_wiring)) by (vm_compute; reflexivity).
  assert (Hmsg : handlers_of "pmessage" (c_listeners (Conn 1 subscriber_wiring))
                 = [OnPMessage]) by reflexivity.
  assert (Hreg : psubscriptions subscribed_client !! "news.*" = Some weather)
    by (vm_compute; reflexivity).
  destruct (punsubscribe_takes_effect_at_once "news.*" _ (PStr "news.sports") (PStr "goal")
              subscribed_client Hsub Hmsg) as (_ & Hgone & _ & _ & Hdrop).
  exact (conj Hsub (conj Hmsg (conj Hreg (conj Hgone Hdrop)))).
Defined.

(** X10.  [unsubscribe] and [punsubscribe] check nothing: with a subscriber
    connection the request is sent whether or not the key was registered,
    and a key that was not registered leaves its map as it was.  Each
    removes at most its own key from its own map; every other entry of both
    maps stays. *)
Theorem unsubscribe_touches_one_key
    (st : client) (sc : conn) (key other : string)
    (Hsub : subscriberConnection st = Some sc) (Hne : other <> key) :
  (fst (unsubscribe key st) = Return tt /\
   driver_requests (trace (step (Unsubscribe key) st))
     = driver_requests (trace st) ++ [(c_id sc, ReqUnsubscribe key)] /\
   subscriptions (step (Unsubscribe key) st) !! other = subscriptions st !! other /\
   psubscriptions (step (Unsubscribe key) st) = psubscriptions st /\
   (subscriptions st !! key = None ->
      subscriptions (step (Unsubscribe key) st) = subscriptions st)) /\
  (fst (punsubscribe key st) = Return tt /\
   driver_requests (trace (step (Punsubscribe key) st))
     = driver_requests (trace st) ++ [(c_id sc, ReqPunsubscribe key)] /\
   psubscriptions (step (Punsubscribe key) st) !! other = psubscriptions st !! other /\
   subscriptions (step (Punsubscribe key) st) = subscriptions st /\
   (psubscriptions st !! key = None ->
      psubscriptions (step (Punsubscribe key) st) = psubscriptions st)).
Proof.
  split.
  - destruct (unsubscribe_maps key st) as [Hs Hp]. cbn [step]. rewrite Hs, Hp.
    split; [|split; [|split; [|split]]].
    + rewrite unsubscribe_cases. unfold subscriber_request. simpl. rewrite Hsub. reflexivity.
    + unfold exec. rewrite unsubscribe_cases. unfold subscriber_request. simpl.
      rewrite Hsub. simpl. rewrite driver_requests_app. reflexivity.
    + apply lookup_delete_ne. auto.
    + reflexivity.
    + intros H. apply delete_id. exact H.
  - destruct (punsubscribe_maps key st) as [Hs Hp]. cbn [step]. rewrite Hs, Hp.
    split; [|split; [|split; [|split]]].
    + rewrite punsubscribe_cases. unfold subscriber_request. simpl. rewrite Hsub. reflexivity.
    + unfold exec. rewrite punsubscribe_cases. unfold subscriber_request. simpl.
      rewrite Hsub. simpl. rewrite driver_requests_app. reflexivity.
    + apply lookup_delete_ne. auto.
    + reflexivity.
    + intros H. apply delete_id. exact H.
Qed.

Lemma unsubscribe_touches_one_key_witness :
  subscriberConnection subscribed_client = Some (Conn 1 subscriber_wiring) /\
  "news" <> "weather" /\
  subscriptions (step (Unsubscribe "weather") subscribed_client) !! "news"
    = subscriptions subscribed_client !! "news" /\
  driver_requests (trace (step (Unsubscribe "weather") subscribed_client))
    = driver_requests (trace subscribed_client)
      ++ [(c_id (Conn 1 subscriber_wiring), ReqUnsubscribe "weather")].
Proof.
  assert (Hsub : subscriberConnection subscribed_client
                 = Some (Conn 1 subscriber_wiring)) by (vm_compute; reflexivity).
  assert (Hne : "news" <> "weather") by discriminate.
  destruct (unsubscribe_touches_one_key subscribed_client _ "weather" "news" Hsub Hne)
    as ((_ & Hreq & Hother & _) & _).
  exact (conj Hsub (conj Hne (conj Hother Hreq))).
Defined.

(** ** After an 'end' *)

Section AfterEnd.

Implicit Types (st : client).


Lemma listeners_of_empty_bus (name : string) : Emittery.listeners name [] = [].
Proof. reflexivity. Qed.

End AfterEnd.







(** ** Subscribing again *)

(** X13.  A channel is free again after [unsubscribe] and after a failed
    handshake.  With a subscriber connection, [subscribe] right after
    [unsubscribe] of the channel is not rejected, whatever was registered,
    and its successful handshake registers the new handler; and on a
    channel without handler, [subscribe] after a [subscribe] whose handshake
    failed is not rejected either. *)
Theorem resubscribe_is_accepted
    (st : client) (sc : conn) (c e : string) (h h2 : callback) (n : nat)
    (Hsub : subscriberConnection st = Some sc) :
  fst (subscribe c h2 (step (Unsubscribe c) st)) = Return tt /\
  subscriptions
    (run [Unsubscribe c; Subscribe c h2; Handshake (SubscribeCb c h2) None n] st) !! c
    = Some h2 /\
  (subscriptions st !! c = None ->
     subscriptions (run [Subscribe c h; Handshake (SubscribeCb c h) (Some e) n] st) !! c
       = None /\
     fst (subscribe c h2 (run [Subscribe c h; Handshake (SubscribeCb c h) (Some e) n] st))
       = Return tt).
Proof.
  assert (Hgone : subscriptions (step (Unsubscribe c) st) !! c = None).
  { cbn [step]. destruct (unsubscribe_maps c st) as [Hs _]. rewrite Hs.
    apply lookup_delete_eq. }
  split; [|split].
  - destruct (subscribe_absent c h2 _ Hgone) as (sc' & _ & H). rewrite H. reflexivity.
  - unfold run. cbn [fold_left].
    change (step (Handshake (SubscribeCb c h2) None n)
              (step (Subscribe c h2) (step (Unsubscribe c) st)))
      with (exec (run_callback (SubscribeCb c h2) None n)
              (step (Subscribe c h2) (step (Unsubscribe c) st))).
    unfold exec at 1. simpl. apply lookup_insert_eq.
  - intros Hnone.
    assert (Hstill : subscriptions
                       (run [Subscribe c h; Handshake (SubscribeCb c h) (Some e) n] st) !! c
                     = None).
    { unfold run. cbn [fold_left step].
      change (subscriptions (exec (run_callback (SubscribeCb c h) (Some e) n)
                               (exec (subscribe c h) st)))
        with (subscriptions (exec (subscribe c h) st)).
      destruct (subscribe_frame c h st) as [Hs _]. rewrite Hs. exact Hnone. }
    split; [exact Hstill|].
    destruct (subscribe_absent c h2 _ Hstill) as (sc' & _ & H). rewrite H. reflexivity.
Qed.

Lemma resubscribe_is_accepted_witness :
  subscriberConnection subscribed_client = Some (Conn 1 subscriber_wiring) /\
  subscriptions subscribed_client !! "news" = Some sports /\
  fst (subscribe "news" quiet (step (Unsubscribe "news") subscribed_client)) = Return tt /\
  subscriptions
    (run [Unsubscribe "news"; Subscribe "news" quiet;
          Handshake (SubscribeCb "news" quiet) None 1] subscribed_client) !! "news"
    = Some quiet.
Proof.
  assert (Hsub : subscriberConnection subscribed_client
                 = Some (Conn 1 subscriber_wiring)) by (vm_compute; reflexivity).
  assert (Hreg : subscriptions subscribed_client !! "news" = Some sports)
    by (vm_compute; reflexivity).
  destruct (resubscribe_is_accepted subscribed_client _ "news" "refused" sports quiet 1 Hsub)
    as (H1 & H2 & _).
  exact (conj Hsub (conj Hreg (conj H1 H2))).
Defined.

(** X14.  [unsubscribe] does not cancel a handshake in flight.  When
    [unsubscribe] of a channel comes between [subscribe] and its successful
    handshake, the callback still registers the handler: the channel is in
    the map after the three steps, whatever the client was, and a further
    [subscribe] of it is rejected. *)
Theorem late_handshake_registers_after_unsubscribe
    (st : client) (c : string) (h h2 : callback) (n : nat) :
  let late := run [Subscribe c h; Unsubscribe c; Handshake (SubscribeCb c h) None n] st in
  subscriptions (run [Subscribe c h; Unsubscribe c] st) !! c = None /\
  subscriptions late !! c = Some h /\
  fst (subscribe c h2 late) = Throw (E_MULTIPLE_REDIS_SUBSCRIPTIONS c).
Proof.
  intros late.
  assert (Hlate : subscriptions late !! c = Some h).
  { subst late. unfold run. cbn [fold_left].
    change (step (Handshake (SubscribeCb c h) None n)
              (step (Unsubscribe c) (step (Subscribe c h) st)))
      with (exec (run_callback (SubscribeCb c h) None n)
              (step (Unsubscribe c) (step (Subscribe c h) st))).
    unfold exec at 1. simpl. apply lookup_insert_eq. }
  split; [|split; [exact Hlate|]].
  - unfold run. cbn [fold_left].
    change (step (Unsubscribe c) (step (Subscribe c h) st))
      with (exec (unsubscribe c) (step (Subscribe c h) st)).
    destruct (unsubscribe_maps c (step (Subscribe c h) st)) as [Hs _]. rewrite Hs.
    apply lookup_delete_eq.
  - rewrite subscribe_cases. cbv zeta. unfold map_has. rewrite Hlate. reflexivity.
Qed.

(** ** Events of the two connections *)

Section Proxies.

Implicit Types (st : client).

Lemma handlers_of_none (ev : string) (l : list (string * native_handler)) :
  ~ In ev (map fst l) -> handlers_of ev l = [].
Proof.
  induction l as [|[ev' h] l IH]; intros Hn; [reflexivity|].
  simpl in *. destruct (String.eqb ev' ev) eqn:E.
  - apply String.eqb_eq in E. tauto.
  - apply IH. tauto.
Qed.

Lemma handlers_of_sub (P : native_handler -> Prop) (ev : string)
    (l : list (string * native_handler)) :
  Forall P (map snd l) -> Forall P (handlers_of ev l).
Proof.
  induction l as [|[ev' h] l IH]; intros H; [constructor|].
  simpl in *. apply Forall_cons in H as [Hh Hl].
  destruct (String.eqb ev' ev); [constructor|]; auto.
Qed.

Lemma run_handlers_returns (hs : list native_handler) (args : list payload) st :
  Forall (fun h => forall s, fst (run_native h args s) = Return tt) hs ->
  fst (run_handlers hs args st) = Return tt.
Proof.
  revert st. induction hs as [|h hs IH]; intros st H; [reflexivity|].
  apply Forall_cons in H as [Hh Hhs]. simpl. unfold bind.
  specialize (Hh st). destruct (run_native h args st) as [[[]|e] st1]; simpl in Hh.
  - apply IH. exact Hhs.
  - discriminate.
Qed.

Lemma primary_wiring_returns (args : list payload) :
  Forall (fun h => forall s, fst (run_native h args s) = Return tt) (map snd primary_wiring).
Proof. unfold primary_wiring. simpl. repeat constructor. Qed.

End Proxies.

(** X15.  On a client whose primary connection carries the listeners of
    [$proxyConnectionEvents], 'connect', 'ready', 'close' and 'reconnecting'
    are each re-emitted on the bus under the same name and without
    argument, whatever the connection passed; 'error' is re-emitted with
    the error.  No event of the primary connection makes its listener
    throw, and an event the class did not register for changes nothing. *)
Theorem primary_events_proxied
    (st : client) (ev : string) (args : list payload)
    (Hw : c_listeners (connection st) = primary_wiring) :
  emitted (fire_primary "connect" args) st
    = [Emission "connect" PUndefined (Emittery.listeners "connect" (bus st)) KFloating] /\
  emitted (fire_primary "ready" args) st
    = [Emission "ready" PUndefined (Emittery.listeners "ready" (bus st)) KFloating] /\
  emitted (fire_primary "error" args) st
    = [Emission "error" (arg 0 args) (Emittery.listeners "error" (bus st)) KFloating] /\
  emitted (fire_primary "close" args) st
    = [Emission "close" PUndefined (Emittery.listeners "close" (bus st)) KFloating] /\
  emitted (fire_primary "reconnecting" args) st
    = [Emission "reconnecting" PUndefined
         (Emittery.listeners "reconnecting" (bus st)) KFloating] /\
  fst (fire_primary ev args st) = Return tt /\
  (~ In ev (map fst primary_wiring) -> fire_primary ev args st = (Return tt, st)).
Proof.
  repeat split.
  1-5: apply emitted_one; unfold exec, fire_primary; rewrite Hw; reflexivity.
  - unfold fire_primary. rewrite Hw. apply run_handlers_returns.
    apply handlers_of_sub. apply primary_wiring_returns.
  - intros Hn. unfold fire_primary. rewrite Hw, (handlers_of_none ev _ Hn). reflexivity.
Qed.

Lemma primary_events_proxied_witness :
  c_listeners (connection listening_client) = primary_wiring /\
  emitted (fire_primary "error" [PStr "ECONNRESET"]) listening_client
    = [Emission "error" (arg 0 [PStr "ECONNRESET"])
         (Emittery.listeners "error" (bus listening_client)) KFloating] /\
  fst (fire_primary "connect" [PStr "ECONNRESET"] listening_client) = Return tt.
Proof.
  assert (H : c_listeners (connection listening_client) = primary_wiring)
    by (vm_compute; reflexivity).
  destruct (primary_events_proxied listening_client "connect" [PStr "ECONNRESET"] H)
    as (_ & _ & He & _ & _ & Hr & _).
  exact (conj H (conj He Hr)).
Defined.

(** X16.  On a client whose subscriber connection carries the listeners of
    [$setupSubscriberConnection], 'connect', 'ready', 'close' and
    'reconnecting' of that connection are re-emitted on the bus with the
    prefix 'subscriber:' and without argument, and 'error' with the error.
    'message' and 'pmessage' emit nothing on the bus, and an event the
    class did not register for on this connection, the node events of a
    cluster among them, changes nothing. *)
Theorem subscriber_events_proxied
    (st : client) (sc : conn) (ev : string) (args : list payload)
    (Hsub : subscriberConnection st = Some sc)
    (Hw : c_listeners sc = subscriber_wiring) :
  emitted (fire_subscriber "connect" args) st
    = [Emission "subscriber:connect" PUndefined
         (Emittery.listeners "subscriber:connect" (bus st)) KFloating] /\
  emitted (fire_subscriber "ready" args) st
    = [Emission "subscriber:ready" PUndefined
         (Emittery.listeners "subscriber:ready" (bus st)) KFloating] /\
  emitted (fire_subscriber "error" args) st
    = [Emission "subscriber:error" (arg 0 args)
         (Emittery.listeners "subscriber:error" (bus st)) KFloating] /\
  emitted (fire_subscriber "close" args) st
    = [Emission "subscriber:close" PUndefined
         (Emittery.listeners "subscriber:close" (bus st)) KFloating] /\
  emitted (fire_subscriber "reconnecting" args) st
    = [Emission "subscriber:reconnecting" PUndefined
         (Emittery.listeners "subscriber:reconnecting" (bus st)) KFloating] /\
  emitted (fire_subscriber "message" args) st = [] /\
  emitted (fire_subscriber "pmessage" args) st = [] /\
  (~ In ev (map fst subscriber_wiring) -> fire_subscriber ev args st = (Return tt, st)) /\
  fire_subscriber "+node" args st = (Return tt, st) /\
  fire_subscriber "-node" args st = (Return tt, st) /\
  fire_subscriber "node error" args st = (Return tt, st).
Proof.
  repeat split.
  1-5: apply emitted_one; unfold exec, fire_subscriber; rewrite Hsub, Hw; reflexivity.
  - apply emitted_nothing. unfold exec, fire_subscriber. rewrite Hsub, Hw.
    change (handlers_of "message" subscriber_wiring) with [OnMessage].
    cbn [run_handlers]. unfold bind, run_native.
    destruct (map_get (subscriptions st) (arg 0 args)) as [h|]; [|reflexivity].
    unfold call. destruct (cb_throws h); reflexivity.
  - apply emitted_nothing. unfold exec, fire_subscriber. rewrite Hsub, Hw.
    change (handlers_of "pmessage" subscriber_wiring) with [OnPMessage].
    cbn [run_handlers]. unfold bind, run_native.
    destruct (map_get (psubscriptions st) (arg 0 args)) as [h|]; [|reflexivity].
    unfold call. destruct (cb_throws h); reflexivity.
  - intros Hn. unfold fire_subscriber. rewrite Hsub, Hw, (handlers_of_none ev _ Hn).
    reflexivity.
  - unfold fire_subscriber. rewrite Hsub, Hw. reflexivity.
  - unfold fire_subscriber. rewrite Hsub, Hw. reflexivity.
  - unfold fire_subscriber. rewrite Hsub, Hw. reflexivity.
Qed.

Lemma subscriber_events_proxied_witness :
  subscriberConnection listening_client = Some (Conn 1 subscriber_wiring) /\
  c_listeners (Conn 1 subscriber_wiring) = subscriber_wiring /\
  emitted (fire_subscriber "error" [PStr "ECONNRESET"]) listening_client
    = [Emission "subscriber:error" (arg 0 [PStr "ECONNRESET"])
         (Emittery.listeners "subscriber:error" (bus listening_client)) KFloating] /\
  fire_subscriber "+node" [PStr "ECONNRESET"] listening_client
    = (Return tt, listening_client).
Proof.
  assert (H : subscriberConnection listening_client = Some (Conn 1 subscriber_wiring))
    by (vm_compute; reflexivity).
  destruct (subscriber_events_proxied listening_client _ "wait" [PStr "ECONNRESET"]
              H eq_refl) as (_ & _ & He & _ & _ & _ & _ & _ & Hn & _).
  exact (conj H (conj eq_refl (conj He Hn))).
Defined.

(** ** Shutting down, in full *)

(** X17.  No piece of [quit] or [disconnect] touches the listeners of
    either connection, the bus, the emissions in flight, the unhandled
    rejections or the maps: all a piece can do is send its request.  A
    rejected promise is rethrown to the caller and nothing more is sent.
    Neither method is guarded: called again, it sends the request to the
    primary connection again. *)
Theorem shutdown_only_sends_requests (s : stage) (e : string) (st : client) :
  (connection (snd (quit s st)) = connection st /\
   subscriberConnection (snd (quit s st)) = subscriberConnection st /\
   bus (snd (quit s st)) = bus st /\
   microtasks (snd (quit s st)) = microtasks st /\
   unhandled (snd (quit s st)) = unhandled st /\
   same_maps st (snd (quit s st))) /\
  (connection (snd (disconnect s st)) = connection st /\
   subscriberConnection (snd (disconnect s st)) = subscriberConnection st /\
   bus (snd (disconnect s st)) = bus st /\
   microtasks (snd (disconnect s st)) = microtasks st /\
   unhandled (snd (disconnect s st)) = unhandled st /\
   same_maps st (snd (disconnect s st))) /\
  (quit (FirstSettled (Rejected e)) st = (Finished (Throw (Thrown e)), st) /\
   quit (SecondSettled (Rejected e)) st = (Finished (Throw (Thrown e)), st) /\
   disconnect (FirstSettled (Rejected e)) st = (Finished (Throw (Thrown e)), st) /\
   disconnect (SecondSettled (Rejected e)) st = (Finished (Throw (Thrown e)), st)) /\
  driver_requests (trace (run [Quit Called; Quit Called] st))
    = driver_requests (trace st)
      ++ [(c_id (connection st), ReqQuit); (c_id (connection st), ReqQuit)] /\
  driver_requests (trace (run [Disconnect Called; Disconnect Called] st))
    = driver_requests (trace st)
      ++ [(c_id (connection st), ReqDisconnect); (c_id (connection st), ReqDisconnect)].
Proof.
  split; [|split; [|split; [|split]]].
  - rewrite quit_state. destruct s as [|[|e']|[|e']];
      try destruct (subscriberConnection st) eqn:E; repeat split; simpl; auto.
  - rewrite disconnect_state. destruct s as [|[|e']|[|e']];
      try destruct (subscriberConnection st) eqn:E; repeat split; simpl; auto.
  - repeat split.
  - unfold run. cbn [fold_left step quit snd record trace connection].
    rewrite !driver_requests_app, <- app_assoc. reflexivity.
  - unfold run. cbn [fold_left step disconnect snd record trace connection].
    rewrite !driver_requests_app, <- app_assoc. reflexivity.
Qed.

(** ** When the pattern map changes *)


(** X18.  [psubscribe] throws E_MULTIPLE_REDIS_PSUBSCRIPTIONS exactly when
    the pattern is in the pattern map at the call.  No action adds a
    pattern to the map but a successful handshake callback of [psubscribe]
    for that pattern, and none removes one but [punsubscribe] of that
    pattern or the settling of the emission awaited by the subscriber's
    'end' listener. *)
Theorem pattern_map_changes (a : action) (key : string) (h : callback) (st : client) :
  (fst (psubscribe key h st) = Throw (E_MULTIPLE_REDIS_PSUBSCRIPTIONS key)
     <-> is_Some (psubscriptions st !! key)) /\
  (psubscriptions st !! key = None ->
   is_Some (psubscriptions (step a st) !! key) ->
   exists h' n, a = Handshake (PsubscribeCb key h') None n) /\
  (psubscriptions st !! key = Some h ->
   psubscriptions (step a st) !! key = None ->
   a = Punsubscribe key \/
   (a = Microtasks /\ exists em, In em (microtasks st) /\ em_kont em = KSubscriberEnd)).
Proof.
  split; [|split].
  - rewrite psubscribe_cases. cbv zeta. rewrite <- map_has_true.
    destruct (map_has (psubscriptions st) key); simpl.
    + split; reflexivity.
    + split; [|discriminate].
      destruct (subscriberConnection (exec setupSubscriberConnection st)); discriminate.
  - apply step_pattern_grows.
  - apply step_pattern_shrinks.
Qed.

Lemma pattern_map_changes_witness :
  psubscriptions subscribed_client !! "news.*" = Some weather /\
  psubscriptions (step (Punsubscribe "news.*") subscribed_client) !! "news.*" = None /\
  (Punsubscribe "news.*" = Punsubscribe "news.*" \/
   (Punsubscribe "news.*" = Microtasks /\
    exists em, In em (microtasks subscribed_client) /\ em_kont em = KSubscriberEnd)).
Proof.
  assert (H1 : psubscriptions subscribed_client !! "news.*" = Some weather)
    by (vm_compute; reflexivity).
  assert (H2 : psubscriptions (step (Punsubscribe "news.*") subscribed_client) !! "news.*"
               = None) by (vm_compute; reflexivity).
  destruct (pattern_map_changes (Punsubscribe "news.*") "news.*" weather subscribed_client)
    as (_ & _ & Hshrink).
  exact (conj H1 (conj H2 (Hshrink H1 H2))).
Defined.
